(** * Attachment ingestion and speech playback of the Gemini chat client

    A shallow embedding of the two stateful pipelines of the client:
    - [InputArea] (the component App.tsx imports from components/InputArea,
      found in the second half of components/ChatMessage.tsx): file
      validation, FileReader bookkeeping, cancellation and sending;
    - [App] (src/App.tsx): the text-to-speech session slot and its settings.

    React state ([useState]) and refs ([useRef]) are fields of a record that
    every handler transforms. What the browser owns (the FileReader objects,
    the audio graph, pending promises, alert boxes and the console) is kept in
    further fields of the same record, so that a handler's effect on the
    outside world can be observed. *)

From Stdlib Require Import NArith ZArith QArith Ascii String DecimalString.
From Stdlib.Strings Require Import Byte.
From stdpp Require Import base list strings.

Local Open Scope string_scope.

(** ** JavaScript strings and arrays

    A string is a sequence of code units; code units below 256 are enough
    for every literal of the program. *)

Module JS.

(** [s.startsWith(p)] *)
Fixpoint startsWith (p s : string) : bool :=
  match p, s with
  | EmptyString, _ => true
  | String a p', String b s' => Ascii.eqb a b && startsWith p' s'
  | String _ _, EmptyString => false
  end.

(** [s.split(sep)] for a one-character separator: never empty. *)
Fixpoint split (sep : ascii) (s : string) : list string :=
  match s with
  | EmptyString => [EmptyString]
  | String c s' =>
      if Ascii.eqb c sep then EmptyString :: split sep s'
      else match split sep s' with
           | [] => [String c EmptyString]
           | h :: t => String c h :: t
           end
  end.

(** [s.includes(sub)], which is [s.indexOf(sub) !== -1]. *)
Fixpoint includes (sub s : string) : bool :=
  startsWith sub s ||
  match s with EmptyString => false | String _ s' => includes sub s' end.

(** White space and line terminators among the code units below 256. *)
Definition isWhiteSpace (c : ascii) : bool :=
  let k := N_of_ascii c in
  ((9 <=? k) && (k <=? 13) || (k =? 32) || (k =? 160))%N.

Fixpoint trimStart (s : string) : string :=
  match s with
  | EmptyString => EmptyString
  | String c s' => if isWhiteSpace c then trimStart s' else s
  end.

Fixpoint trimEnd (s : string) : string :=
  match s with
  | EmptyString => EmptyString
  | String c s' =>
      match trimEnd s' with
      | EmptyString => if isWhiteSpace c then EmptyString else String c EmptyString
      | r => String c r
      end
  end.

(** [s.trim()] *)
Definition trim (s : string) : string := trimEnd (trimStart s).

(** Truthiness of a string: only the empty string is falsy. *)
Definition truthy (s : string) : bool :=
  match s with EmptyString => false | _ => true end.

(** [a.indexOf(x)]: [None] stands for [-1]. *)
Fixpoint indexOf (x : nat) (a : list nat) : option nat :=
  match a with
  | [] => None
  | y :: a' => if Nat.eqb y x then Some 0 else S <$> indexOf x a'
  end.

(** [n.toString()] for an integer. *)
Definition toString (n : Z) : string := NilZero.string_of_int (Z.to_int n).

End JS.

(** ** types.ts *)

Module File.
(** A browser [File]: the fields the program reads, and its content. *)
Record t := mk { name : string; type : string; bytes : list byte }.
Definition size (f : t) : N := N.of_nat (length (bytes f)).
End File.

Module Attachment.
(** [data] is [None] when the program stores [undefined] in it. *)
Record t := mk {
  mimeType : string;
  data : option string;
  url : option string;
  name : option string;
  size : option N
}.
End Attachment.

Inductive Role := user | model.

Module Message.
Record t := mk {
  id : string;
  role : Role;
  text : string;
  attachments : option (list Attachment.t);
  timestamp : Z
}.
End Message.

Inductive TTSVoice := Puck | Charon | Kore | Fenrir | Zephyr.

(** The enum's members are the strings of their names. *)
Definition voiceName (v : TTSVoice) : string :=
  match v with
  | Puck => "Puck"
  | Charon => "Charon"
  | Kore => "Kore"
  | Fenrir => "Fenrir"
  | Zephyr => "Zephyr"
  end.

(** ** The browser's data URLs

    [FileReader.readAsDataURL] is part of the platform, not of the program:
    per the File API its result is ["data:" + type + ";base64," + payload],
    the payload being the RFC 4648 base64 text of the file's bytes. *)

Module Base64.

Definition char (n : N) : ascii :=
  (if n <? 26 then ascii_of_N (65 + n)
   else if n <? 52 then ascii_of_N (97 + (n - 26))
   else if n <? 62 then ascii_of_N (48 + (n - 52))
   else if n =? 62 then "+"%char else "/"%char)%N.

Definition index (c : ascii) : option N :=
  let k := N_of_ascii c in
  (if (65 <=? k) && (k <=? 90) then Some (k - 65)
   else if (97 <=? k) && (k <=? 122) then Some (k - 97 + 26)
   else if (48 <=? k) && (k <=? 57) then Some (k - 48 + 52)
   else if k =? 43 then Some 62
   else if k =? 47 then Some 63
   else None)%N.

Definition pad : ascii := "="%char.

Fixpoint encode (bs : list byte) : string :=
  match bs with
  | [] => EmptyString
  | [a] =>
      let a := Byte.to_N a in
      String (char (a / 4)) (String (char (a mod 4 * 16))
        (String pad (String pad EmptyString)))
  | [a; b] =>
      let a := Byte.to_N a in
      let b := Byte.to_N b in
      String (char (a / 4)) (String (char (a mod 4 * 16 + b / 16))
        (String (char (b mod 16 * 4)) (String pad EmptyString)))
  | a :: b :: c :: rest =>
      let a := Byte.to_N a in
      let b := Byte.to_N b in
      let c := Byte.to_N c in
      String (char (a / 4)) (String (char (a mod 4 * 16 + b / 16))
        (String (char (b mod 16 * 4 + c / 64)) (String (char (c mod 64))
          (encode rest))))
  end%N.

Definition bytes1 (i1 i2 : N) : option (list byte) :=
  a ← Byte.of_N (i1 * 4 + i2 / 16); Some [a].

Definition bytes2 (i1 i2 i3 : N) : option (list byte) :=
  a ← Byte.of_N (i1 * 4 + i2 / 16);
  b ← Byte.of_N (i2 mod 16 * 16 + i3 / 4);
  Some [a; b].

Definition bytes3 (i1 i2 i3 i4 : N) : option (list byte) :=
  a ← Byte.of_N (i1 * 4 + i2 / 16);
  b ← Byte.of_N (i2 mod 16 * 16 + i3 / 4);
  c ← Byte.of_N (i3 mod 4 * 64 + i4);
  Some [a; b; c].

Fixpoint decode (s : string) : option (list byte) :=
  match s with
  | EmptyString => Some []
  | String c1 (String c2 (String c3 (String c4 rest))) =>
      i1 ← index c1;
      i2 ← index c2;
      if Ascii.eqb c3 pad && Ascii.eqb c4 pad then
        match rest with EmptyString => bytes1 i1 i2 | _ => None end
      else
        i3 ← index c3;
        if Ascii.eqb c4 pad then
          match rest with EmptyString => bytes2 i1 i2 i3 | _ => None end
        else
          i4 ← index c4;
          hd ← bytes3 i1 i2 i3 i4;
          tl ← decode rest;
          Some (hd ++ tl)%list
  | _ => None
  end.

End Base64.

(** [reader.readAsDataURL(file)], as the [result] of a successful read. *)
Definition readAsDataURL (f : File.t) : string :=
  "data:" ++ File.type f ++ ";base64," ++ Base64.encode (File.bytes f).

(** ** The browser's FileReader objects

    A reader is identified by its position in [readers], the list of all
    readers constructed so far. Only a [LOADING] reader can still fire
    [load] or [error]. *)

Inductive ReadyState := LOADING | DONE.

Module FileReader.
Record t := mk { file : File.t; readyState : ReadyState }.
End FileReader.

(** ** The InputArea component *)

Module InputArea.

Record t := mk {
  input : string;
  attachments : list Attachment.t;
  isDragging : bool;
  isProcessing : bool;
  isListening : bool;
  activeReaders : list nat;        (* [activeReaders.current] *)
  readers : list FileReader.t;     (* platform: the FileReader heap *)
  alerts : list string;            (* platform: [alert] boxes shown *)
  console : list string            (* platform: [console.error] lines *)
}.

(** The props the component receives from [App]. *)
Record Props := mkProps {
  isLoading : bool;
  quotedMessage : option Message.t
}.

(** What [handleSend] hands to its parent. *)
Record Sent := mkSent {
  sentText : string;
  sentAttachments : list Attachment.t;
  quoteCleared : bool              (* [onClearQuote()] was called *)
}.

Definition init : t := mk "" [] false false false [] [] [] [].

Definition setInput (v : string) (s : t) : t :=
  mk v (attachments s) (isDragging s) (isProcessing s) (isListening s)
     (activeReaders s) (readers s) (alerts s) (console s).

Definition setAttachments (v : list Attachment.t) (s : t) : t :=
  mk (input s) v (isDragging s) (isProcessing s) (isListening s)
     (activeReaders s) (readers s) (alerts s) (console s).

Definition setIsDragging (v : bool) (s : t) : t :=
  mk (input s) (attachments s) v (isProcessing s) (isListening s)
     (activeReaders s) (readers s) (alerts s) (console s).

Definition setIsProcessing (v : bool) (s : t) : t :=
  mk (input s) (attachments s) (isDragging s) v (isListening s)
     (activeReaders s) (readers s) (alerts s) (console s).

Definition setActiveReaders (v : list nat) (s : t) : t :=
  mk (input s) (attachments s) (isDragging s) (isProcessing s) (isListening s)
     v (readers s) (alerts s) (console s).

Definition setReaders (v : list FileReader.t) (s : t) : t :=
  mk (input s) (attachments s) (isDragging s) (isProcessing s) (isListening s)
     (activeReaders s) v (alerts s) (console s).

Definition alert (msg : string) (s : t) : t :=
  mk (input s) (attachments s) (isDragging s) (isProcessing s) (isListening s)
     (activeReaders s) (readers s) (alerts s ++ [msg]) (console s).

Definition consoleError (msg : string) (s : t) : t :=
  mk (input s) (attachments s) (isDragging s) (isProcessing s) (isListening s)
     (activeReaders s) (readers s) (alerts s) (console s ++ [msg]).

(** *** cleanupReader *)
Definition cleanupReader (reader : nat) (s : t) : t :=
  let s1 :=
    match JS.indexOf reader (activeReaders s) with
    | Some index => setActiveReaders (delete index (activeReaders s)) s
    | None => s
    end in
  if Nat.eqb (length (activeReaders s1)) 0 then setIsProcessing false s1 else s1.

(** *** The three handlers [processFiles] installs on a reader *)
Definition isImage (f : File.t) : bool := JS.startsWith "image/" (File.type f).

Definition onload (reader : nat) (file : File.t) (result : string) (s : t) : t :=
  let base64Data := JS.split ","%char result !! 1%nat in
  let newAttachment :=
    Attachment.mk (File.type file) base64Data (Some result)
                  (Some (File.name file)) (Some (File.size file)) in
  cleanupReader reader (setAttachments (attachments s ++ [newAttachment]) s).

Definition onerror (reader : nat) (s : t) : t :=
  cleanupReader reader (consoleError "Error reading file" s).

Definition onabort (reader : nat) (s : t) : t := cleanupReader reader s.

(** *** processFiles *)

(** One turn of [validFiles.forEach]: construct a reader, track it, install
    the handlers and start reading. *)
Definition startReader (s : t) (file : File.t) : t :=
  let reader := length (readers s) in
  setReaders (readers s ++ [FileReader.mk file LOADING])
    (setActiveReaders (activeReaders s ++ [reader]) s).

Definition processFiles (files : list File.t) (s : t) : t :=
  let validFiles := List.filter isImage files in
  if Nat.eqb (length validFiles) 0 && Nat.ltb 0 (length files) then
    alert "Only image files are supported." s
  else
    fold_left startReader validFiles (setIsProcessing true s).

(** *** Platform: delivery of a reader's events *)

Definition finish (reader : nat) (fr : FileReader.t) (s : t) : t :=
  setReaders (<[reader := FileReader.mk (FileReader.file fr) DONE]> (readers s)) s.

(** The read of [reader] completes: [load] fires with the data URL. *)
Definition fireLoad (reader : nat) (s : t) : t :=
  match readers s !! reader with
  | Some (FileReader.mk f LOADING as fr) =>
      onload reader f (readAsDataURL f) (finish reader fr s)
  | _ => s
  end.

(** The read of [reader] fails: [error] fires. *)
Definition fireError (reader : nat) (s : t) : t :=
  match readers s !! reader with
  | Some (FileReader.mk f LOADING as fr) => onerror reader (finish reader fr s)
  | _ => s
  end.

(** [reader.abort()]: a loading reader becomes done, its queued events are
    dropped and [abort] is fired before the call returns; otherwise
    nothing happens. *)
Definition abort (reader : nat) (s : t) : t :=
  match readers s !! reader with
  | Some (FileReader.mk f LOADING as fr) => onabort reader (finish reader fr s)
  | _ => s
  end.

(** *** cancelUpload *)

(** [activeReaders.current.forEach(reader => reader.abort())]: the length
    is read once before the loop; turn [k] then looks index [k] up in the
    array as it is at that moment, and skips the turn if it is absent. *)
Fixpoint forEachAbort (turns k : nat) (s : t) : t :=
  match turns with
  | O => s
  | S turns' =>
      forEachAbort turns' (S k)
        match activeReaders s !! k with
        | Some reader => abort reader s
        | None => s
        end
  end.

Definition cancelUpload (s : t) : t :=
  let s1 := forEachAbort (length (activeReaders s)) 0 s in
  setIsProcessing false (setActiveReaders [] s1).

(** *** removeAttachment, clearAttachments *)

(** [prev.filter((_, i) => i !== index)] drops the element at [index]. *)
Definition removeAttachment (index : nat) (s : t) : t :=
  setAttachments (delete index (attachments s)) s.

Definition clearAttachments (s : t) : t :=
  setAttachments [] (cancelUpload s).

(** *** handleSend *)

Definition dquote : string := String "034"%char EmptyString.
Definition newline : string := String "010"%char EmptyString.

Definition quoteText (q : Message.t) (input : string) : string :=
  "[Replying to]: " ++ dquote ++ substring 0 200 (Message.text q)
    ++ (if Nat.ltb 200 (String.length (Message.text q)) then "..." else "")
    ++ dquote ++ newline ++ newline ++ "[My Message]: " ++ input.

(** The guard of [handleSend] (and of the send button's [disabled]). *)
Definition sendBlocked (p : Props) (s : t) : bool :=
  (negb (JS.truthy (JS.trim (input s))) && Nat.eqb (length (attachments s)) 0)
  || isLoading p || isProcessing s.

Definition handleSend (p : Props) (s : t) : t * option Sent :=
  if sendBlocked p s then (s, None)
  else
    let sent :=
      match quotedMessage p with
      | Some q => mkSent (quoteText q (input s)) (attachments s) true
      | None => mkSent (input s) (attachments s) false
      end in
    (setAttachments [] (setInput "" s), Some sent).

(** *** The entry points that feed [processFiles] *)

Definition handleFileChange (files : list File.t) (s : t) : t :=
  if Nat.ltb 0 (length files) then processFiles files s else s.

Definition onDrop (files : list File.t) (s : t) : t :=
  let s1 := setIsDragging false s in
  if Nat.ltb 0 (length files) then processFiles files s1 else s1.

(** A clipboard item: its type and what [getAsFile()] returns. *)
Definition ClipboardItem : Type := string * option File.t.

Definition pastedFiles (items : list ClipboardItem) : list File.t :=
  omap (fun it : ClipboardItem =>
          if JS.includes "image" (fst it) then snd it else None) items.

Definition handlePaste (items : list ClipboardItem) (s : t) : t :=
  let files := pastedFiles items in
  if Nat.ltb 0 (length files) then processFiles files s else s.

(** *** Events of the component and the states they reach *)

Inductive Event :=
| Typed (v : string)
| FilesChosen (files : list File.t)
| Pasted (items : list ClipboardItem)
| Dropped (files : list File.t)
| DragOver
| DragLeave
| Loaded (reader : nat)
| Failed (reader : nat)
| CancelUpload
| RemoveAttachment (index : nat)
| ClearAttachments
| Send (p : Props).

Definition step (e : Event) (s : t) : t :=
  match e with
  | Typed v => setInput v s
  | FilesChosen files => handleFileChange files s
  | Pasted items => handlePaste items s
  | Dropped files => onDrop files s
  | DragOver => setIsDragging true s
  | DragLeave => setIsDragging false s
  | Loaded reader => fireLoad reader s
  | Failed reader => fireError reader s
  | CancelUpload => cancelUpload s
  | RemoveAttachment index => removeAttachment index s
  | ClearAttachments => clearAttachments s
  | Send p => fst (handleSend p s)
  end.

Definition run (es : list Event) (s : t) : t := fold_left (fun s e => step e s) es s.

Inductive reachable : t -> Prop :=
| reachable_init : reachable init
| reachable_step e s : reachable s -> reachable (step e s).

(** The processing flag says whether a reader is being tracked. *)
Definition flagMatches (s : t) : Prop :=
  isProcessing s = negb (Nat.eqb (length (activeReaders s)) 0).

(** The flag is up whenever a reader is being tracked. *)
Definition flagCovers (s : t) : Prop :=
  activeReaders s <> [] -> isProcessing s = true.

(** The readers that can still deliver a result. *)
Definition isLoadingIn (rs : list FileReader.t) (r : nat) : bool :=
  match rs !! r with
  | Some (FileReader.mk _ LOADING) => true
  | _ => false
  end.

Definition loading (s : t) : list nat :=
  List.filter (isLoadingIn (readers s)) (seq 0 (length (readers s))).

(** The events that cancel, and the states reached without them. *)
Definition cancels (e : Event) : bool :=
  match e with
  | CancelUpload | ClearAttachments => true
  | _ => false
  end.

Inductive reachableWithoutCancel : t -> Prop :=
| uncancelled_init : reachableWithoutCancel init
| uncancelled_step e s :
    cancels e = false -> reachableWithoutCancel s ->
    reachableWithoutCancel (step e s).

End InputArea.

(** ** JavaScript numbers of the speed setting

    The speed is only ever produced by [parseFloat] on short decimal texts
    and compared with decimal bounds, so a number is modelled as an exact
    rational or [NaN]; [parseFloat] reads an optional sign, digits and an
    optional fraction after leading white space, and ignores what follows. *)

Inductive number := NaN | Num (q : Q).

Module Number.

Definition digit (c : ascii) : option N :=
  let k := N_of_ascii c in
  (if (48 <=? k) && (k <=? 57) then Some (k - 48) else None)%N.

Fixpoint digits (s : string) : list N * string :=
  match s with
  | EmptyString => ([], EmptyString)
  | String c s' =>
      match digit c with
      | Some d => let (ds, r) := digits s' in (d :: ds, r)
      | None => ([], s)
      end
  end.

Definition fromDigits (ds : list N) : N :=
  fold_left (fun acc d => acc * 10 + d)%N ds 0%N.

Definition parseUnsigned (s : string) : option Q :=
  let (ip, r) := digits s in
  let fp := match r with
            | String "."%char r' => fst (digits r')
            | _ => []
            end in
  match ip, fp with
  | [], [] => None
  | _, _ => Some (Z.of_N (fromDigits (ip ++ fp)%list)
                  # Z.to_pos (10 ^ Z.of_nat (length fp)))
  end.

Definition parseFloat (s : string) : number :=
  let body (neg : bool) (r : string) :=
    match parseUnsigned r with
    | Some q => Num (if neg then Qopp q else q)
    | None => NaN
    end in
  match JS.trimStart s with
  | String "-"%char r => body true r
  | String "+"%char r => body false r
  | r => body false r
  end.




End Number.

(** ** src/App.tsx *)

(** The browser's audio graph. *)
Inductive ContextState := suspended | running | closed.

Module Source.
(** An [AudioBufferSourceNode]: whose speech it carries, its
    [playbackRate], and whether it is sounding. *)
Record t := mk { owner : string; playbackRate : number; playing : bool }.
End Source.

(** What a render closes over: [handleSpeak] reads these, not the live
    state, for as long as one invocation runs. *)
Record Closure := mkClosure {
  c_isSpeakingId : option string;
  c_selectedVoice : string;
  c_ttsSpeed : number;
  c_autoSpeak : bool
}.

(** Where an invocation of [handleSpeak] is suspended. *)
Inductive Stage :=
| AwaitResume                 (* [await audioContextRef.current.resume()] *)
| AwaitSpeech                 (* [await generateSpeech(...)] *)
| AwaitDecode                 (* [await decodeAudioData(...)] *)
| AwaitPlay (source : nat)    (* [await playAudioBuffer(...)] *)
| Returned.

Module Call.
Record t := mk { closure : Closure; message : Message.t; stage : Stage }.
End Call.

(** How the platform settles the promise an invocation is waiting for. *)
Inductive Outcome :=
| Resumed
| ResumeRejected
| Speech (base64Audio : option string)   (* [None] is [undefined] *)
| SpeechRejected
| Decoded
| DecodeRejected
| Ended.

Inductive ChatOutcome :=
| Replied (responseText : option string)
| ChatFailed (message : option string).

(** Modelled from the spec: [decodeBase64] of utils/audioUtils.ts is not
    among the sources; the spec names it the base64 decode primitive that
    turns the returned encoded audio into bytes. An undecodable text makes
    it throw, which is [None] here. *)
Definition decodeBase64 (base64Audio : string) : option (list byte) :=
  Base64.decode base64Audio.

Module App.

Record t := mk {
  messages : list Message.t;
  isLoading : bool;
  isSpeakingId : option string;
  speakingLoading : bool;
  selectedVoice : string;
  ttsSpeed : number;
  autoSpeak : bool;
  searchQuery : string;
  isSearchActive : bool;
  quotedMessage : option Message.t;
  audioContextRef : option ContextState;   (* [audioContextRef.current] *)
  activeSourceRef : option nat;            (* [activeSourceRef.current] *)
  lastSpokenMessageId : option string;
  sources : list Source.t;                 (* platform: source nodes started *)
  calls : list Call.t;                     (* platform: [handleSpeak] invocations *)
  timers : list (Closure * Message.t);     (* platform: pending [setTimeout]s *)
  alerts : list string;
  console : list string
}.

Definition blank : t :=
  mk [] false None false (voiceName Kore) (Num 1) false "" false None
     None None None [] [] [] [] [].

Definition setMessages v s :=
  mk v (isLoading s) (isSpeakingId s) (speakingLoading s) (selectedVoice s)
     (ttsSpeed s) (autoSpeak s) (searchQuery s) (isSearchActive s)
     (quotedMessage s) (audioContextRef s) (activeSourceRef s)
     (lastSpokenMessageId s) (sources s) (calls s) (timers s) (alerts s)
     (console s).
Definition setIsLoading v s :=
  mk (messages s) v (isSpeakingId s) (speakingLoading s) (selectedVoice s)
     (ttsSpeed s) (autoSpeak s) (searchQuery s) (isSearchActive s)
     (quotedMessage s) (audioContextRef s) (activeSourceRef s)
     (lastSpokenMessageId s) (sources s) (calls s) (timers s) (alerts s)
     (console s).
Definition setIsSpeakingId v s :=
  mk (messages s) (isLoading s) v (speakingLoading s) (selectedVoice s)
     (ttsSpeed s) (autoSpeak s) (searchQuery s) (isSearchActive s)
     (quotedMessage s) (audioContextRef s) (activeSourceRef s)
     (lastSpokenMessageId s) (sources s) (calls s) (timers s) (alerts s)
     (console s).
Definition setSpeakingLoading v s :=
  mk (messages s) (isLoading s) (isSpeakingId s) v (selectedVoice s)
     (ttsSpeed s) (autoSpeak s) (searchQuery s) (isSearchActive s)
     (quotedMessage s) (audioContextRef s) (activeSourceRef s)
     (lastSpokenMessageId s) (sources s) (calls s) (timers s) (alerts s)
     (console s).
Definition setSelectedVoice v s :=
  mk (messages s) (isLoading s) (isSpeakingId s) (speakingLoading s) v
     (ttsSpeed s) (autoSpeak s) (searchQuery s) (isSearchActive s)
     (quotedMessage s) (audioContextRef s) (activeSourceRef s)
     (lastSpokenMessageId s) (sources s) (calls s) (timers s) (alerts s)
     (console s).
Definition setTtsSpeed v s :=
  mk (messages s) (isLoading s) (isSpeakingId s) (speakingLoading s)
     (selectedVoice s) v (autoSpeak s) (searchQuery s) (isSearchActive s)
     (quotedMessage s) (audioContextRef s) (activeSourceRef s)
     (lastSpokenMessageId s) (sources s) (calls s) (timers s) (alerts s)
     (console s).
Definition setAutoSpeak v s :=
  mk (messages s) (isLoading s) (isSpeakingId s) (speakingLoading s)
     (selectedVoice s) (ttsSpeed s) v (searchQuery s) (isSearchActive s)
     (quotedMessage s) (audioContextRef s) (activeSourceRef s)
     (lastSpokenMessageId s) (sources s) (calls s) (timers s) (alerts s)
     (console s).
Definition setSearchQuery v s :=
  mk (messages s) (isLoading s) (isSpeakingId s) (speakingLoading s)
     (selectedVoice s) (ttsSpeed s) (autoSpeak s) v (isSearchActive s)
     (quotedMessage s) (audioContextRef s) (activeSourceRef s)
     (lastSpokenMessageId s) (sources s) (calls s) (timers s) (alerts s)
     (console s).
Definition setIsSearchActive v s :=
  mk (messages s) (isLoading s) (isSpeakingId s) (speakingLoading s)
     (selectedVoice s) (ttsSpeed s) (autoSpeak s) (searchQuery s) v
     (quotedMessage s) (audioContextRef s) (activeSourceRef s)
     (lastSpokenMessageId s) (sources s) (calls s) (timers s) (alerts s)
     (console s).
Definition setQuotedMessage v s :=
  mk (messages s) (isLoading s) (isSpeakingId s) (speakingLoading s)
     (selectedVoice s) (ttsSpeed s) (autoSpeak s) (searchQuery s)
     (isSearchActive s) v (audioContextRef s) (activeSourceRef s)
     (lastSpokenMessageId s) (sources s) (calls s) (timers s) (alerts s)
     (console s).
Definition setAudioContextRef v s :=
  mk (messages s) (isLoading s) (isSpeakingId s) (speakingLoading s)
     (selectedVoice s) (ttsSpeed s) (autoSpeak s) (searchQuery s)
     (isSearchActive s) (quotedMessage s) v (activeSourceRef s)
     (lastSpokenMessageId s) (sources s) (calls s) (timers s) (alerts s)
     (console s).
Definition setActiveSourceRef v s :=
  mk (messages s) (isLoading s) (isSpeakingId s) (speakingLoading s)
     (selectedVoice s) (ttsSpeed s) (autoSpeak s) (searchQuery s)
     (isSearchActive s) (quotedMessage s) (audioContextRef s) v
     (lastSpokenMessageId s) (sources s) (calls s) (timers s) (alerts s)
     (console s).
Definition setLastSpokenMessageId v s :=
  mk (messages s) (isLoading s) (isSpeakingId s) (speakingLoading s)
     (selectedVoice s) (ttsSpeed s) (autoSpeak s) (searchQuery s)
     (isSearchActive s) (quotedMessage s) (audioContextRef s)
     (activeSourceRef s) v (sources s) (calls s) (timers s) (alerts s)
     (console s).
Definition setSources v s :=
  mk (messages s) (isLoading s) (isSpeakingId s) (speakingLoading s)
     (selectedVoice s) (ttsSpeed s) (autoSpeak s) (searchQuery s)
     (isSearchActive s) (quotedMessage s) (audioContextRef s)
     (activeSourceRef s) (lastSpokenMessageId s) v (calls s) (timers s)
     (alerts s) (console s).
Definition setCalls v s :=
  mk (messages s) (isLoading s) (isSpeakingId s) (speakingLoading s)
     (selectedVoice s) (ttsSpeed s) (autoSpeak s) (searchQuery s)
     (isSearchActive s) (quotedMessage s) (audioContextRef s)
     (activeSourceRef s) (lastSpokenMessageId s) (sources s) v (timers s)
     (alerts s) (console s).
Definition setTimers v s :=
  mk (messages s) (isLoading s) (isSpeakingId s) (speakingLoading s)
     (selectedVoice s) (ttsSpeed s) (autoSpeak s) (searchQuery s)
     (isSearchActive s) (quotedMessage s) (audioContextRef s)
     (activeSourceRef s) (lastSpokenMessageId s) (sources s) (calls s) v
     (alerts s) (console s).
Definition alert (msg : string) s :=
  mk (messages s) (isLoading s) (isSpeakingId s) (speakingLoading s)
     (selectedVoice s) (ttsSpeed s) (autoSpeak s) (searchQuery s)
     (isSearchActive s) (quotedMessage s) (audioContextRef s)
     (activeSourceRef s) (lastSpokenMessageId s) (sources s) (calls s)
     (timers s) (alerts s ++ [msg]) (console s).
Definition consoleError (msg : string) s :=
  mk (messages s) (isLoading s) (isSpeakingId s) (speakingLoading s)
     (selectedVoice s) (ttsSpeed s) (autoSpeak s) (searchQuery s)
     (isSearchActive s) (quotedMessage s) (audioContextRef s)
     (activeSourceRef s) (lastSpokenMessageId s) (sources s) (calls s)
     (timers s) (alerts s) (console s ++ [msg]).

(** The values the current render hands to the handlers it creates. *)
Definition render (s : t) : Closure :=
  mkClosure (isSpeakingId s) (selectedVoice s) (ttsSpeed s) (autoSpeak s).

(** The sources that are sounding. *)
Definition audible (s : t) : list Source.t :=
  List.filter Source.playing (sources s).

(** The invocations of [handleSpeak] that have not returned yet. *)
Definition pending (c : Call.t) : bool :=
  match Call.stage c with Returned => false | _ => true end.

Definition inFlight (s : t) : list Call.t := List.filter pending (calls s).

(** *** Platform: [AudioBufferSourceNode.stop()] *)
Definition stopSource (source : nat) (s : t) : t :=
  match sources s !! source with
  | Some n =>
      setSources (<[source := Source.mk (Source.owner n) (Source.playbackRate n) false]>
                    (sources s)) s
  | None => s
  end.

(** *** stopAudio *)
Definition stopAudio (s : t) : t :=
  let s1 :=
    match activeSourceRef s with
    | Some source => setActiveSourceRef None (stopSource source s)
    | None => s
    end in
  setIsSpeakingId None s1.

(** Modelled from the spec: [playAudioBuffer] of utils/audioUtils.ts is
    not among the sources. The spec has it begin playback of the decoded
    buffer on the shared output context at the given rate, and complete
    when playback ends naturally. It receives the buffer, the context and
    the speed, and returns the number of the source it started. *)
Definition playAudioBuffer (owner : string) (speed : number) (s : t) : nat * t :=
  (length (sources s), setSources (sources s ++ [Source.mk owner speed true]) s).

(** *** handleSpeak *)

Definition setStage (call : nat) (c : Call.t) (st : Stage) (s : t) : t :=
  setCalls (<[call := Call.mk (Call.closure c) (Call.message c) st]> (calls s)) s.

(** The [catch] block. *)
Definition catch (cl : Closure) (s : t) : t :=
  let s1 := consoleError "TTS Error:" s in
  let s2 := if c_autoSpeak cl then s1
            else alert "Failed to generate speech. Please check your API Key." s1 in
  setSpeakingLoading false (setIsSpeakingId None s2).

Definition sameId (a : option string) (b : string) : bool :=
  match a with Some x => String.eqb x b | None => false end.

(** From the call to the first [await]. [fresh] is what
    [new AudioContext(...)] gives if it has to be constructed: the state
    of the new context, or [None] if the constructor throws. *)
Definition handleSpeak (fresh : option ContextState) (cl : Closure)
    (message : Message.t) (s : t) : t :=
  if sameId (c_isSpeakingId cl) (Message.id message) then stopAudio s
  else
    let s1 := stopAudio s in
    let s2 := setSpeakingLoading true s1 in
    let s3 := setIsSpeakingId (Some (Message.id message)) s2 in
    let created :=
      match audioContextRef s3 with
      | Some _ => Some s3
      | None =>
          match fresh with
          | Some st => Some (setAudioContextRef (Some st) s3)
          | None => None
          end
      end in
    match created with
    | None => catch cl s3
    | Some s4 =>
        let stage :=
          match audioContextRef s4 with
          | Some suspended => AwaitResume
          | _ => AwaitSpeech
          end in
        setCalls (calls s4 ++ [Call.mk cl message stage]) s4
    end.

(** The rest of an invocation, resumed when its promise settles. An
    outcome that does not fit the stage of the call is not delivered. *)
Definition settle (call : nat) (o : Outcome) (s : t) : t :=
  match calls s !! call with
  | None => s
  | Some c =>
      let cl := Call.closure c in
      let fail := catch cl (setStage call c Returned s) in
      match Call.stage c, o with
      | AwaitResume, Resumed =>
          setStage call c AwaitSpeech (setAudioContextRef (Some running) s)
      | AwaitResume, ResumeRejected => fail
      | AwaitSpeech, Speech base64Audio =>
          match base64Audio with
          | None => fail
          | Some b =>
              if negb (JS.truthy b) then fail
              else match decodeBase64 b with
                   | None => fail
                   | Some _ => setStage call c AwaitDecode s
                   end
          end
      | AwaitSpeech, SpeechRejected => fail
      | AwaitDecode, Decoded =>
          let (source, s1) :=
            playAudioBuffer (Message.id (Call.message c)) (c_ttsSpeed cl) s in
          setStage call c (AwaitPlay source) s1
      | AwaitDecode, DecodeRejected => fail
      | AwaitPlay source, Ended =>
          (* the source has played to its end and is silent again *)
          let s1 := stopSource source s in
          let s2 := setIsSpeakingId None s1 in
          let s3 := setActiveSourceRef None s2 in
          setSpeakingLoading false (setStage call c Returned s3)
      | _, _ => s
      end
  end.

(** *** The auto-speak effect, run after [messages] or [autoSpeak] change *)
Definition isModel (m : Message.t) : bool :=
  match Message.role m with model => true | user => false end.

Definition autoSpeakEffect (s : t) : t :=
  if negb (autoSpeak s) || Nat.eqb (length (messages s)) 0 then s
  else
    match last (messages s) with
    | None => s
    | Some lastMessage =>
        if isModel lastMessage
           && negb (sameId (lastSpokenMessageId s) (Message.id lastMessage))
        then
          setTimers (timers s ++ [(render s, lastMessage)])
            (setLastSpokenMessageId (Some (Message.id lastMessage)) s)
        else s
    end.

(** *** Settings *)

Definition optTruthy (v : option string) : bool :=
  match v with Some x => JS.truthy x | None => false end.

(** The two [localStorage.getItem] reads of the mount effect. *)
Definition loadSettings (savedSpeed savedVoice : option string) (s : t) : t :=
  let s1 := match savedSpeed with
            | Some v => if JS.truthy v then setTtsSpeed (Number.parseFloat v) s else s
            | None => s
            end in
  match savedVoice with
  | Some v => if JS.truthy v then setSelectedVoice v s1 else s1
  | None => s1
  end.

(** [onChange] of the speed slider. *)
Definition speedChanged (value : string) (s : t) : t :=
  setTtsSpeed (Number.parseFloat value) s.

Definition voiceChanged (value : string) (s : t) : t := setSelectedVoice value s.

Definition toggleAutoSpeak (s : t) : t :=
  autoSpeakEffect (setAutoSpeak (negb (autoSpeak s)) s).

(** *** Messages *)

Definition welcome (now : Z) : Message.t :=
  Message.mk "welcome" model
    "Hello! I'm your Gemini Assistant. I can help you with text, analyze images you paste or upload, and I can even read my responses aloud."
    None now.

Definition initNewChat (now : Z) (s : t) : t :=
  autoSpeakEffect
    (setQuotedMessage None (setIsSearchActive false (setSearchQuery ""
       (setMessages [welcome now] s)))).

(** The mount effect; [saved] is the stored history when there is one
    that parses to a non-empty array. *)
Definition mount (now : Z) (saved : option (list Message.t))
    (savedSpeed savedVoice : option string) : t :=
  let s1 := match saved with
            | Some (m :: ms) => autoSpeakEffect (setMessages (m :: ms) blank)
            | _ => initNewChat now blank
            end in
  loadSettings savedSpeed savedVoice s1.

(** [handleSendMessage] up to its [await]; [now] is the clock. *)
Definition handleSendMessage (now : Z) (text : string)
    (attachments : list Attachment.t) (s : t) : t :=
  let s1 := if JS.truthy (searchQuery s)
            then setIsSearchActive false (setSearchQuery "" s) else s in
  let newMessage := Message.mk (JS.toString now) user text (Some attachments) now in
  autoSpeakEffect (setIsLoading true (setMessages (messages s1 ++ [newMessage]) s1)).

(** [handleSendMessage] after its [await]. *)
Definition chatSettled (now : Z) (o : ChatOutcome) (s : t) : t :=
  let botMessage :=
    match o with
    | Replied responseText =>
        Message.mk (JS.toString (now + 1)) model
          (if optTruthy responseText then default "" responseText
           else "I couldn't generate a text response.")
          None now
    | ChatFailed message =>
        Message.mk (JS.toString now) model
          ("Error: " ++ (if optTruthy message then default "" message else "Unknown error")
           ++ "." ++ InputArea.newline ++ InputArea.newline
           ++ "Please check your internet connection and ensure your API KEY is set correctly in your environment variables.")
          None now
    end in
  let s1 := match o with Replied _ => s | ChatFailed _ => consoleError "chat error" s end in
  autoSpeakEffect (setIsLoading false (setMessages (messages s1 ++ [botMessage]) s1)).

(** *** Events of the component and the states they reach *)

(** The read-aloud button of a message is [disabled] while that message
    is the speaking one and speech is loading; user messages have none. *)
Definition speakEnabled (m : Message.t) (s : t) : bool :=
  isModel m && negb (sameId (isSpeakingId s) (Message.id m) && speakingLoading s).

Inductive Event :=
| Click (index : nat) (fresh : option ContextState)
| Timeout (timer : nat) (fresh : option ContextState)
| Settle (call : nat) (o : Outcome)
| ToggleAutoSpeak
| SpeedChanged (value : string)
| VoiceChanged (value : string)
| NewChat (now : Z)
| Reply (index : nat)
| ClearQuote
| SendMessage (now : Z) (text : string) (attachments : list Attachment.t)
| ChatSettled (now : Z) (o : ChatOutcome).

Definition step (e : Event) (s : t) : t :=
  match e with
  | Click index fresh =>
      match messages s !! index with
      | Some m => if speakEnabled m s then handleSpeak fresh (render s) m s else s
      | None => s
      end
  | Timeout timer fresh =>
      match timers s !! timer with
      | Some (cl, m) => handleSpeak fresh cl m (setTimers (delete timer (timers s)) s)
      | None => s
      end
  | Settle call o => settle call o s
  | ToggleAutoSpeak => toggleAutoSpeak s
  | SpeedChanged value => speedChanged value s
  | VoiceChanged value => voiceChanged value s
  | NewChat now => initNewChat now s
  | Reply index =>
      match messages s !! index with
      | Some m => setQuotedMessage (Some m) s
      | None => s
      end
  | ClearQuote => setQuotedMessage None s
  | SendMessage now text attachments => handleSendMessage now text attachments s
  | ChatSettled now o => chatSettled now o s
  end.

Definition run (es : list Event) (s : t) : t := fold_left (fun s e => step e s) es s.

Inductive reachable : t -> Prop :=
| reachable_mount now saved savedSpeed savedVoice :
    reachable (mount now saved savedSpeed savedVoice)
| reachable_step e s : reachable s -> reachable (step e s).

(** The settlements that take an invocation into its [catch] block: a
    rejected promise, or a speech payload that is missing, empty or not
    decodable. *)
Definition failing (st : Stage) (o : Outcome) : bool :=
  match st, o with
  | AwaitResume, ResumeRejected => true
  | AwaitSpeech, SpeechRejected => true
  | AwaitSpeech, Speech None => true
  | AwaitSpeech, Speech (Some b) =>
      negb (JS.truthy b)
      || match decodeBase64 b with Some _ => false | None => true end
  | AwaitDecode, DecodeRejected => true
  | _, _ => false
  end.

Definition failureAlert : string :=
  "Failed to generate speech. Please check your API Key.".

(** While a message is the speaking one, speech is loading. *)
Definition speakingIsLoading (s : t) : Prop :=
  isSpeakingId s <> None -> speakingLoading s = true.

End App.

(** ** The two components together

    [App] renders [InputArea] with [isLoading] and [quotedMessage] as props
    and [handleSendMessage] and [setQuotedMessage(null)] as callbacks. *)

Module UI.

Record t := mk { app : App.t; inputArea : InputArea.t }.

Definition props (a : App.t) : InputArea.Props :=
  InputArea.mkProps (App.isLoading a) (App.quotedMessage a).

(** A click on the send button, or Enter in the text area. *)
Definition handleSend (now : Z) (ui : t) : t :=
  match InputArea.handleSend (props (app ui)) (inputArea ui) with
  | (ia, Some sent) =>
      let a1 := if InputArea.quoteCleared sent
                then App.setQuotedMessage None (app ui) else app ui in
      mk (App.handleSendMessage now (InputArea.sentText sent)
            (InputArea.sentAttachments sent) a1) ia
  | (ia, None) => mk (app ui) ia
  end.

End UI.

(** ** Further JavaScript helpers *)

Module JSLib.

(** [s.endsWith(suffix)]: some tail of [s] is [suffix]. *)
Fixpoint endsWith (suffix s : string) : bool :=
  String.eqb s suffix ||
  match s with EmptyString => false | String _ s' => endsWith suffix s' end.

(** [a.filter((x, i) => f(x, i))], the callback seeing the position. *)
Fixpoint filterIndexFrom {A} (f : A -> nat -> bool) (i : nat) (a : list A) : list A :=
  match a with
  | [] => []
  | x :: a' =>
      if f x i then x :: filterIndexFrom f (S i) a' else filterIndexFrom f (S i) a'
  end.

Definition filterIndex {A} (f : A -> nat -> bool) (a : list A) : list A :=
  filterIndexFrom f 0 a.

(** [s.toLowerCase()] on code units below 256: the capital letters A-Z
    and the accented capitals 192-222 (but the sign 215) move up by 32. *)
Definition lowerChar (c : ascii) : ascii :=
  let k := N_of_ascii c in
  (if (65 <=? k) && (k <=? 90) then ascii_of_N (k + 32)
   else if (192 <=? k) && (k <=? 222) && negb (k =? 215) then ascii_of_N (k + 32)
   else c)%N.

Fixpoint toLowerCase (s : string) : string :=
  match s with
  | EmptyString => EmptyString
  | String c s' => String (lowerChar c) (toLowerCase s')
  end.

(** [x.toFixed(1)] for [x = num / den] with [den] a power of two, so that
    the quotient is exact: the nearest tenth, the larger one on a tie. *)
Definition tenths (num den : N) : N := ((20 * num + den) / (2 * den))%N.

Definition decimal1 (n : N) : string :=
  JS.toString (Z.of_N (n / 10)) ++ "." ++ JS.toString (Z.of_N (n mod 10)).

Definition toFixed1 (num den : N) : string := decimal1 (tenths num den).

End JSLib.

(** ** More of the InputArea component *)

Module InputAreaView.

(** [formatFileSize]; [bytes] is the optional [size] of an attachment. *)
Definition formatFileSize (bytes : option N) : string :=
  match bytes with
  | None => ""
  | Some b =>
      (if b =? 0 then ""
       else if b <? 1024 then JS.toString (Z.of_N b) ++ " B"
       else if b <? 1048576 then JSLib.toFixed1 b 1024 ++ " KB"
       else JSLib.toFixed1 b 1048576 ++ " MB")%N
  end.

(** The attachment the [load] handler builds for a file. *)
Definition attachmentOf (f : File.t) : Attachment.t :=
  Attachment.mk (File.type f) (JS.split ","%char (readAsDataURL f) !! 1%nat)
    (Some (readAsDataURL f)) (Some (File.name f)) (Some (File.size f)).

(** The file a reader was started on. *)
Definition fileOf (s : InputArea.t) (reader : nat) : option File.t :=
  FileReader.file <$> InputArea.readers s !! reader.

(** Whether a reader is one of [order]. *)
Definition among (order : list nat) (x : nat) : bool := existsb (Nat.eqb x) order.

(** The attachments the readers of [order] deliver, in that order. *)
Definition delivered (s : InputArea.t) (order : list nat) : list Attachment.t :=
  omap (fun r => attachmentOf <$> fileOf s r) order.

(** The elements at the odd positions 1, 3, 5, ... of a list. *)
Fixpoint everyOther (l : list nat) : list nat :=
  match l with
  | _ :: y :: rest => y :: everyOther rest
  | _ => []
  end.

(** A loop over the positions [k], [k + 1], ... of a list that deletes the
    element it finds at each position it visits. *)
Fixpoint deleteWalking (turns k : nat) (l : list nat) : list nat :=
  match turns with
  | O => l
  | S turns' =>
      deleteWalking turns' (S k)
        match l !! k with
        | Some _ => delete k l
        | None => l
        end
  end.

End InputAreaView.

(** ** Dictation: the speech recognition handlers of InputArea *)

Module Dictation.

(** [event.results[i]]: [isFinal] and [[0].transcript]. *)
Record Result := mkResult { isFinal : bool; transcript : string }.

Record ResultEvent := mkEvent { resultIndex : nat; results : list Result }.

(** The loop of [onresult] from [event.resultIndex] on. *)
Definition finalTranscript (e : ResultEvent) : string :=
  fold_left (fun acc r => if isFinal r then acc ++ transcript r else acc)
            (drop (resultIndex e) (results e)) "".

Definition spacer (prev : string) : string :=
  if JS.truthy prev && negb (JSLib.endsWith " " prev) then " " else "".

(** [recognitionRef.current.onresult] *)
Definition onresult (e : ResultEvent) (s : InputArea.t) : InputArea.t :=
  let finalTranscript := finalTranscript e in
  if JS.truthy finalTranscript then
    InputArea.setInput
      (InputArea.input s ++ spacer (InputArea.input s) ++ finalTranscript) s
  else s.

End Dictation.

(** ** services/geminiService.ts

    The chat session the service keeps in a module variable is threaded
    through its functions; what is handed to the SDK is returned. *)

Module Service.

Definition CHAT_MODEL : string := "gemini-3-flash-preview".
Definition TTS_MODEL : string := "gemini-2.5-flash-preview-tts".

(** A part of a message as the SDK takes it. *)
Inductive Part :=
| InlineData (mimeType : string) (data : option string)
| Text (text : string).

Record Content := mkContent { role : Role; parts : list Part }.

(** The arguments of [ai.chats.create]. *)
Record Chat := mkChat {
  chatModel : string;
  systemInstruction : string;
  history : option (list Content)     (* [None] is [undefined] *)
}.

Definition defaultInstruction : string :=
  "You are a helpful Windows assistant. You can see images and remember our conversation. You are concise and professional.".

Definition inlinePart (a : Attachment.t) : Part :=
  InlineData (Attachment.mimeType a) (Attachment.data a).

Definition notWelcome (msg : Message.t) : bool :=
  negb (String.eqb (Message.id msg) "welcome").

Definition contentOf (msg : Message.t) : Content :=
  mkContent (Message.role msg)
    (map inlinePart (default [] (Message.attachments msg))
     ++ [Text (Message.text msg)])%list.

(** [initializeChat(systemInstruction?, historyMessages?)]: the session it
    creates, stores and returns. *)
Definition initializeChat (systemInstruction : option string)
    (historyMessages : option (list Message.t)) : Chat :=
  let history :=
    match historyMessages with
    | Some ms => map contentOf (List.filter notWelcome ms)
    | None => []
    end in
  mkChat CHAT_MODEL
    (match systemInstruction with
     | Some i => if JS.truthy i then i else defaultInstruction
     | None => defaultInstruction
     end)
    (if Nat.ltb 0 (length history) then Some history else None).

(** What [chatSession.sendMessage] is given. *)
Inductive Request :=
| Parts (parts : list Part)
| Plain (text : string).

(** [sendMessageToGemini(text, attachments)] up to its [await]: the session
    in use afterwards and the request made on it. *)
Definition sendMessageToGemini (text : string) (attachments : list Attachment.t)
    (chatSession : option Chat) : Chat * Request :=
  let session := match chatSession with
                 | Some c => c
                 | None => initializeChat None None
                 end in
  let parts := (map inlinePart attachments
                ++ (if JS.truthy text then [Text text] else []))%list in
  (session,
   if Nat.ltb 0 (length attachments) then Parts parts else Plain text).

(** The response of [ai.models.generateContent], as far as
    [generateSpeech] looks into it; every level may be missing. *)
Record Blob := mkBlob { data : option string }.
Record ResponsePart := mkResponsePart { inlineData : option Blob }.
Record ResponseContent := mkResponseContent { responseParts : option (list ResponsePart) }.
Record Candidate := mkCandidate { content : option ResponseContent }.
Record Response := mkResponse { candidates : option (list Candidate) }.

(** [response.candidates?.[0]?.content?.parts?.[0]?.inlineData?.data] *)
Definition base64Audio (response : Response) : option string :=
  cs ← candidates response;
  c ← cs !! 0%nat;
  ct ← content c;
  ps ← responseParts ct;
  p ← ps !! 0%nat;
  blob ← inlineData p;
  data blob.

(** The request [generateSpeech] makes. *)
Record SpeechRequest := mkSpeechRequest {
  speechModel : string;
  speechText : string;
  speechVoice : string               (* [prebuiltVoiceConfig.voiceName] *)
}.

Definition speechRequest (text : string) (voice : option string) : SpeechRequest :=
  mkSpeechRequest TTS_MODEL text (default (voiceName Kore) voice).

(** How the call to the SDK ends. *)
Inductive ApiResult :=
| Responded (response : Response)
| Threw.

(** [generateSpeech] after its [await]: how its promise settles for
    [handleSpeak], and what it writes to the console. *)
Definition generateSpeech (api : ApiResult) : Outcome * list string :=
  match api with
  | Responded response => (Speech (base64Audio response), [])
  | Threw => (SpeechRejected, ["Error generating speech:"])
  end.

End Service.

(** ** More of App: searching and the keyboard *)

Module Shell.

(** [App] has one more piece of state than the speech and chat handlers
    use. *)
Record t := mk { app : App.t; showSettings : bool }.

(** [filteredMessages] *)
Definition filteredMessages (a : App.t) : list Message.t :=
  if JS.truthy (App.searchQuery a) then
    List.filter
      (fun msg => JS.includes (JSLib.toLowerCase (App.searchQuery a))
                              (JSLib.toLowerCase (Message.text msg)))
      (App.messages a)
  else App.messages a.

Definition handleClearSearch (a : App.t) : App.t :=
  App.setIsSearchActive false (App.setSearchQuery "" a).

Record KeyEvent := mkKey { altKey : bool; key : string }.

(** [handleKeyDown] of the global shortcut effect. The effect is renewed
    whenever [isSearchActive], [showSettings] or [quotedMessage] change, so
    the handler sees their current values. Alt+I only moves the focus. *)
Definition handleKeyDown (now : Z) (e : KeyEvent) (sh : t) : t :=
  let sh1 :=
    if altKey e && String.eqb (JSLib.toLowerCase (key e)) "n"
    then mk (App.initNewChat now (app sh)) (showSettings sh) else sh in
  let sh2 :=
    if altKey e && String.eqb (JSLib.toLowerCase (key e)) "s"
    then mk (app sh1) (negb (showSettings sh1)) else sh1 in
  if String.eqb (key e) "Escape" then
    let a1 := if App.isSearchActive (app sh) then handleClearSearch (app sh2)
              else app sh2 in
    let shown := if showSettings sh then false else showSettings sh2 in
    let a2 := match App.quotedMessage (app sh) with
              | Some _ => App.setQuotedMessage None a1
              | None => a1
              end in
    mk a2 shown
  else sh2.

(** The search controls: the search button shows while search is inactive,
    the search box while it is active. *)
Inductive Event :=
| OpenSearch
| SearchTyped (query : string)
| ClearSearch
| ToggleSettings
| Key (now : Z) (e : KeyEvent)
| Inner (e : App.Event).

Definition step (e : Event) (sh : t) : t :=
  match e with
  | OpenSearch => mk (App.setIsSearchActive true (app sh)) (showSettings sh)
  | SearchTyped query =>
      if App.isSearchActive (app sh)
      then mk (App.setSearchQuery query (app sh)) (showSettings sh) else sh
  | ClearSearch => mk (handleClearSearch (app sh)) (showSettings sh)
  | ToggleSettings => mk (app sh) (negb (showSettings sh))
  | Key now e => handleKeyDown now e sh
  | Inner e => mk (App.step e (app sh)) (showSettings sh)
  end.

Inductive reachable : t -> Prop :=
| reachable_mount now saved savedSpeed savedVoice :
    reachable (mk (App.mount now saved savedSpeed savedVoice) false)
| reachable_step e sh : reachable sh -> reachable (step e sh).

(** A query is only ever present while search is active. *)
Definition queryNeedsSearch (a : App.t) : Prop :=
  App.searchQuery a <> "" -> App.isSearchActive a = true.

End Shell.

(** ** What [App] keeps true of its speech bookkeeping *)

Module Speech.

(** Every invocation of [handleSpeak], and every timer that will make
    one, is for a message of the model. *)
Definition onlyModelMessages (a : App.t) : Prop :=
  Forall (fun c => App.isModel (Call.message c) = true) (App.calls a)
  /\ Forall (fun t : Closure * Message.t => App.isModel (snd t) = true) (App.timers a).

(** The message [chatSettled] appends. *)
Definition botMessage (now : Z) (o : ChatOutcome) : Message.t :=
  match o with
  | Replied responseText =>
      Message.mk (JS.toString (now + 1)) model
        (if App.optTruthy responseText then default "" responseText
         else "I couldn't generate a text response.")
        None now
  | ChatFailed message =>
      Message.mk (JS.toString now) model
        ("Error: " ++ (if App.optTruthy message then default "" message else "Unknown error")
         ++ "." ++ InputArea.newline ++ InputArea.newline
         ++ "Please check your internet connection and ensure your API KEY is set correctly in your environment variables.")
        None now
  end.

End Speech.

(** ** The conversation: InputArea inside App

    Sending goes from the send button or the Enter key through
    [handleSend] to [handleSendMessage]; the chat request it starts is
    pending until it settles. *)

Module Conversation.

Record t := mk {
  ui : UI.t;
  pendingChats : nat               (* platform: chat requests not settled *)
}.

Inductive Event :=
| SendPressed (now : Z)
| KeyDown (key : string) (shiftKey : bool) (now : Z)
| ChatReturned (now : Z) (o : ChatOutcome)
| Area (e : InputArea.Event)
| Inner (e : App.Event).

Definition send (now : Z) (c : t) : t :=
  mk (UI.handleSend now (ui c))
     (if InputArea.sendBlocked (UI.props (UI.app (ui c))) (UI.inputArea (ui c))
      then pendingChats c else S (pendingChats c)).

(** [handleKeyDown] of the text area: Enter without Shift sends. *)
Definition handleKeyDown (key : string) (shiftKey : bool) (now : Z) (c : t) : t :=
  if String.eqb key "Enter" && negb shiftKey then send now c else c.

Definition step (e : Event) (c : t) : t :=
  match e with
  | SendPressed now => send now c
  | KeyDown key shiftKey now => handleKeyDown key shiftKey now c
  | ChatReturned now o =>
      match pendingChats c with
      | O => c
      | S n => mk (UI.mk (App.chatSettled now o (UI.app (ui c))) (UI.inputArea (ui c))) n
      end
  | Area e =>
      match e with
      | InputArea.Send _ => c
      | _ => mk (UI.mk (UI.app (ui c)) (InputArea.step e (UI.inputArea (ui c))))
                (pendingChats c)
      end
  | Inner e =>
      match e with
      | App.SendMessage _ _ _ | App.ChatSettled _ _ => c
      | _ => mk (UI.mk (App.step e (UI.app (ui c))) (UI.inputArea (ui c)))
                (pendingChats c)
      end
  end.

Inductive reachable : t -> Prop :=
| reachable_mount now saved savedSpeed savedVoice :
    reachable (mk (UI.mk (App.mount now saved savedSpeed savedVoice) InputArea.init) 0)
| reachable_step e c : reachable c -> reachable (step e c).

End Conversation.

(** ** components/ChatMessage.tsx: the code block renderer *)

Module CodeBlock.

(** The class [\w]: letters, digits and the underscore. *)
Definition isWordChar (c : ascii) : bool :=
  let k := N_of_ascii c in
  ((65 <=? k) && (k <=? 90) || (97 <=? k) && (k <=? 122)
   || (48 <=? k) && (k <=? 57) || (k =? 95))%N.

(** The longest run of word characters [s] starts with. *)
Fixpoint takeWord (s : string) : string :=
  match s with
  | EmptyString => EmptyString
  | String c s' => if isWordChar c then String c (takeWord s') else EmptyString
  end.

(** A word followed by something that is not a word character. *)
Definition wordThen (w rest : string) : Prop :=
  Forall (fun c => isWordChar c = true) (list_ascii_of_string w)
  /\ match rest with
     | EmptyString => True
     | String c _ => isWordChar c = false
     end.

(** What follows [p] when [s] starts with it. *)
Fixpoint dropPrefix (p s : string) : option string :=
  match p, s with
  | EmptyString, _ => Some s
  | String a p', String b s' => if Ascii.eqb a b then dropPrefix p' s' else None
  | String _ _, EmptyString => None
  end.

(** The regular expression [language-(\w+)] tried at the start of [s]:
    the group it captures. *)
Definition matchHere (s : string) : option string :=
  match dropPrefix "language-" s with
  | Some rest =>
      match takeWord rest with
      | EmptyString => None
      | w => Some w
      end
  | None => None
  end.

(** [/language-(\w+)/.exec(className)]: the group of the leftmost match. *)
Fixpoint matchLanguage (className : string) : option string :=
  match matchHere className with
  | Some w => Some w
  | None =>
      match className with
      | EmptyString => None
      | String _ rest => matchLanguage rest
      end
  end.

(** [text.replace(/\n$/, '')]: a line feed at the very end is dropped. *)
Fixpoint stripFinalNewline (s : string) : string :=
  match s with
  | EmptyString => EmptyString
  | String c EmptyString => if Ascii.eqb c "010"%char then EmptyString else s
  | String c s' => String c (stripFinalNewline s')
  end.

(** What the component renders: a highlighted block with a header naming
    the language, or plain inline code carrying the class name. *)
Inductive Rendered :=
| Block (language : string) (code : string)
| Inline (className : option string).

(** [CodeBlock({ inline, className, children })]; [children] as the text
    [String(children)] gives. *)
Definition render (inline : bool) (className : option string) (children : string)
    : Rendered :=
  match matchLanguage (default "" className) with
  | Some language =>
      if negb inline then Block language (stripFinalNewline children)
      else Inline className
  | None => Inline className
  end.

End CodeBlock.

(** ** Sample inputs *)

Definition imageA : File.t := File.mk "a.png" "image/png" [x89; x50].
Definition imageB : File.t := File.mk "b.png" "image/png" [x4e; x47].
Definition imageC : File.t := File.mk "c.png" "image/png" [x0d; x0a; x1a].
Definition notes : File.t := File.mk "notes.txt" "text/plain" [x68; x69].
Definition twoImages : list File.t := [imageA; imageB].

(** The application after mounting with nothing stored. *)
Definition started : App.t := App.mount 0 None None None.

(** A question is answered. *)
Definition answered : App.t :=
  App.run [App.SendMessage 1 "hi" []; App.ChatSettled 2 (Replied (Some "hello"))]
          started.

(** The welcome message is read aloud and is playing when the answer is
    read aloud; the speech of the answer arrives and decodes. *)
Definition supersedeTrace : list App.Event :=
  [App.Click 0 (Some running);
   App.Settle 0 (Speech (Some "AAAA")); App.Settle 0 Decoded;
   App.Click 2 None;
   App.Settle 1 (Speech (Some "AAAA")); App.Settle 1 Decoded].

(** The welcome message is read aloud, then the answer, before the first
    speech has arrived; both arrive and decode. *)
Definition overlapTrace : list App.Event :=
  [App.Click 0 (Some running); App.Click 2 None;
   App.Settle 0 (Speech (Some "AAAA")); App.Settle 0 Decoded;
   App.Settle 1 (Speech (Some "AAAA")); App.Settle 1 Decoded].

(** The welcome message is read aloud and starts playing. *)
Definition playingTrace : list App.Event :=
  [App.Click 0 (Some running); App.Settle 0 (Speech (Some "AAAA"));
   App.Settle 0 Decoded].

(** Auto-speak is switched on while the welcome message is the speaking
    one; its timer then calls [handleSpeak] for the same message. *)
Definition secondCall : list App.Event := [App.ToggleAutoSpeak; App.Timeout 0 None].

(** Auto-speak is on and reads the welcome message. *)
Definition autoSpeakTrace : list App.Event :=
  [App.ToggleAutoSpeak; App.Timeout 0 (Some running)].

(** ** Further sample inputs *)

(** Three images are chosen and are being read. *)
Definition threeLoading : InputArea.t :=
  InputArea.step (InputArea.FilesChosen [imageA; imageB; imageC]) InputArea.init.

(** A response whose first part is text and whose second part is audio. *)
Definition audioInSecondPart : Service.Response :=
  Service.mkResponse (Some [Service.mkCandidate (Some (Service.mkResponseContent
    (Some [Service.mkResponsePart None;
           Service.mkResponsePart (Some (Service.mkBlob (Some "AAAA")))])))]).

(** The welcome message is being requested. *)
Definition requesting : App.t := App.step (App.Click 0 (Some running)) started.

(** A search for "Gemini" is under way, the settings are open and the
    welcome message is quoted. *)
Definition searching : Shell.t :=
  Shell.step Shell.ToggleSettings
    (Shell.step (Shell.Inner (App.Reply 0))
       (Shell.step (Shell.SearchTyped "Gemini")
          (Shell.step Shell.OpenSearch (Shell.mk started false)))).

(** A message has been sent and its reply is awaited. *)
Definition waiting : Conversation.t :=
  Conversation.step (Conversation.SendPressed 5)
    (Conversation.step (Conversation.Area (InputArea.Typed "hello"))
       (Conversation.mk (UI.mk started InputArea.init) 0)).

(** * Properties *)

(** ** Attachment ingestion *)

Section Ingestion.

Import InputArea.

Local Ltac flat s := destruct s; simpl in *.

(** What a turn of [validFiles.forEach] changes and what it leaves. *)
Lemma fold_startReader_spec (fs : list File.t) (s : t) :
  let s' := fold_left startReader fs s in
  activeReaders s' = (activeReaders s ++ seq (length (readers s)) (length fs))%list
  /\ readers s' = (readers s ++ map (fun f => FileReader.mk f LOADING) fs)%list
  /\ isProcessing s' = isProcessing s
  /\ attachments s' = attachments s
  /\ input s' = input s
  /\ alerts s' = alerts s.
Proof.
  revert s. induction fs as [|f fs IH]; intros s; simpl.
  - rewrite !app_nil_r. tauto.
  - destruct (IH (startReader s f)) as (Ha & Hr & Hp & Hat & Hi & Hal).
    rewrite Ha, Hr, Hp, Hat, Hi, Hal. flat s.
    rewrite length_app, Nat.add_1_r, <- !app_assoc. simpl. tauto.
Qed.

(** What [processFiles] does to a batch, by the number of its image files. *)
Lemma processFiles_spec (files : list File.t) (s : t) :
  let valid := List.filter isImage files in
  let s' := processFiles files s in
  if Nat.ltb 0 (length valid) then
    activeReaders s'
      = (activeReaders s ++ seq (length (readers s)) (length valid))%list
    /\ readers s'
       = (readers s ++ map (fun f => FileReader.mk f LOADING) valid)%list
    /\ isProcessing s' = true
    /\ attachments s' = attachments s
    /\ alerts s' = alerts s
  else if Nat.ltb 0 (length files) then
    s' = alert "Only image files are supported." s
  else s' = setIsProcessing true s.
Proof.
  intros valid s'. subst s'. unfold processFiles. fold valid.
  destruct (Nat.ltb_spec 0 (length valid)) as [HK|HK].
  - destruct (Nat.eqb_spec (length valid) 0) as [E|_]; [lia|]. simpl.
    destruct (fold_startReader_spec valid (setIsProcessing true s))
      as (Ha & Hr & Hp & Hat & _ & Hal).
    rewrite Ha, Hr, Hp, Hat, Hal. flat s. tauto.
  - assert (E : length valid = 0) by lia. rewrite E. simpl.
    destruct (Nat.ltb 0 (length files)); simpl; [reflexivity|].
    apply length_zero_iff_nil in E. rewrite E. reflexivity.
Qed.

(** C3: a batch with K >= 1 image files registers exactly K new readers,
    one per image file and all of them loading, whatever else the batch
    holds; a non-empty batch without any image file raises the alert and
    starts nothing. *)
Theorem processFiles_registers_one_reader_per_image
    (files : list File.t) (s : t) :
  let valid := List.filter isImage files in
  let s' := processFiles files s in
  if Nat.ltb 0 (length valid) then
    activeReaders s'
      = (activeReaders s ++ seq (length (readers s)) (length valid))%list
    /\ length (activeReaders s') = length (activeReaders s) + length valid
    /\ readers s'
       = (readers s ++ map (fun f => FileReader.mk f LOADING) valid)%list
    /\ isProcessing s' = true
    /\ attachments s' = attachments s
    /\ alerts s' = alerts s
  else if Nat.ltb 0 (length files) then
    alerts s' = (alerts s ++ ["Only image files are supported."])%list
    /\ activeReaders s' = activeReaders s
    /\ readers s' = readers s
    /\ isProcessing s' = isProcessing s
    /\ attachments s' = attachments s
  else True.
Proof.
  intros valid s'. pose proof (processFiles_spec files s) as P.
  cbv zeta in P. fold valid s' in P.
  destruct (Nat.ltb 0 (length valid)).
  - destruct P as (Ha & Hr & Hp & Hat & Hal).
    rewrite Ha, Hr, Hp, Hat, Hal, length_app, length_seq. tauto.
  - destruct (Nat.ltb 0 (length files)); [|exact I].
    rewrite P. flat s. tauto.
Qed.

(** The scenario of the spec: of a text file and two PNG files, the two
    images are read and the text file is not. *)
Example processFiles_three_files :
  let s := processFiles [imageA; notes; imageB] init in
  activeReaders s = [0; 1]
  /\ map FileReader.file (readers s) = [imageA; imageB]
  /\ length (attachments (fireLoad 0 (fireLoad 1 s))) = 2
  /\ isProcessing (fireLoad 0 (fireLoad 1 s)) = false.
Proof. vm_compute. tauto. Qed.



End Ingestion.

(** ** The processing flag *)

Section ProcessingFlag.

Import InputArea.

Local Ltac flat s := destruct s; simpl in *.

Lemma flagMatches_covers (s : t) : flagMatches s -> flagCovers s.
Proof.
  unfold flagMatches, flagCovers. intros -> Hne.
  destruct (activeReaders s); [contradiction|reflexivity].
Qed.

Lemma indexOf_Some_nonempty (x : nat) (l : list nat) (i : nat) :
  JS.indexOf x l = Some i -> l <> [].
Proof. destruct l; [discriminate|congruence]. Qed.

(** [cleanupReader] re-establishes the flag from the weaker invariant. *)
Lemma cleanupReader_flagMatches (reader : nat) (s : t) :
  flagCovers s -> flagMatches (cleanupReader reader s).
Proof.
  unfold flagCovers, flagMatches, cleanupReader. intros Hc.
  destruct (JS.indexOf reader (activeReaders s)) as [i|] eqn:Hi.
  - apply indexOf_Some_nonempty in Hi. specialize (Hc Hi).
    flat s. destruct (delete i activeReaders0); simpl; [reflexivity|exact Hc].
  - flat s. destruct activeReaders0; simpl; [reflexivity|].
    apply Hc. discriminate.
Qed.

Lemma finish_flagCovers reader fr s : flagCovers s -> flagCovers (finish reader fr s).
Proof. flat s. auto. Qed.

Lemma onload_flagMatches reader file result s :
  flagCovers s -> flagMatches (onload reader file result s).
Proof. intros H. apply cleanupReader_flagMatches. flat s. exact H. Qed.

Lemma onerror_flagMatches reader s : flagCovers s -> flagMatches (onerror reader s).
Proof. intros H. apply cleanupReader_flagMatches. flat s. exact H. Qed.


Lemma fireLoad_flagMatches reader s : flagMatches s -> flagMatches (fireLoad reader s).
Proof.
  intros H. unfold fireLoad.
  destruct (readers s !! reader) as [[f []]|]; try exact H.
  apply onload_flagMatches, finish_flagCovers, flagMatches_covers, H.
Qed.

Lemma fireError_flagMatches reader s : flagMatches s -> flagMatches (fireError reader s).
Proof.
  intros H. unfold fireError.
  destruct (readers s !! reader) as [[f []]|]; try exact H.
  apply onerror_flagMatches, finish_flagCovers, flagMatches_covers, H.
Qed.



Lemma processFiles_flagMatches files s :
  0 < length files -> flagMatches s -> flagMatches (processFiles files s).
Proof.
  intros HN H.
  pose proof (processFiles_spec files s) as P.
  cbv zeta in P. unfold flagMatches in *.
  destruct (Nat.ltb_spec 0 (length (List.filter isImage files))) as [HK|HK].
  - destruct P as (Ha & _ & Hp & _). rewrite Hp, Ha, length_app, length_seq.
    destruct (Nat.eqb_spec (length (activeReaders s) + length (List.filter isImage files)) 0);
      [lia|reflexivity].
  - destruct (Nat.ltb_spec 0 (length files)); [|lia].
    rewrite P. flat s. exact H.
Qed.

Lemma step_flagMatches (e : Event) (s : t) : flagMatches s -> flagMatches (step e s).
Proof.
  intros H. destruct e; simpl.
  - flat s; exact H.
  - unfold handleFileChange. destruct (Nat.ltb_spec 0 (length files)); [|exact H].
    apply processFiles_flagMatches; assumption.
  - unfold handlePaste. destruct (Nat.ltb_spec 0 (length (pastedFiles items))); [|exact H].
    apply processFiles_flagMatches; assumption.
  - unfold onDrop.
    assert (H' : flagMatches (setIsDragging false s)) by (flat s; exact H).
    destruct (Nat.ltb_spec 0 (length files)); [|exact H'].
    apply processFiles_flagMatches; assumption.
  - flat s; exact H.
  - flat s; exact H.
  - apply fireLoad_flagMatches, H.
  - apply fireError_flagMatches, H.
  - reflexivity.
  - flat s; exact H.
  - reflexivity.
  - unfold handleSend. destruct (sendBlocked p s); simpl; [exact H|]. flat s; exact H.
Qed.

(** In every reachable state the flag says whether a reader is tracked. *)
Lemma reachable_flagMatches (s : t) : reachable s -> flagMatches s.
Proof.
  induction 1 as [|e s _ IH]; [reflexivity|]. apply step_flagMatches, IH.
Qed.


(** *** Without cancellation the tracked readers are the loading ones *)

Lemma loading_startReader (s : t) (f : File.t) :
  loading (startReader s f) = (loading s ++ [length (readers s)])%list.
Proof.
  unfold loading, startReader. flat s.
  rewrite length_app, Nat.add_1_r, seq_S, List.filter_app. simpl. f_equal.
  - apply List.filter_ext_in. intros r Hr%in_seq. unfold isLoadingIn.
    rewrite lookup_app_l by lia. reflexivity.
  - unfold isLoadingIn. rewrite lookup_app_r, Nat.sub_diag by lia. reflexivity.
Qed.

Lemma tracked_fold_startReader (fs : list File.t) (s : t) :
  activeReaders s = loading s ->
  activeReaders (fold_left startReader fs s) = loading (fold_left startReader fs s).
Proof.
  revert s. induction fs as [|f fs IH]; intros s H; simpl; [exact H|].
  apply IH. rewrite loading_startReader, <- H. flat s. reflexivity.
Qed.

Lemma tracked_processFiles (files : list File.t) (s : t) :
  activeReaders s = loading s ->
  activeReaders (processFiles files s) = loading (processFiles files s).
Proof.
  intros H. unfold processFiles.
  destruct (_ && _); [flat s; exact H|].
  apply tracked_fold_startReader. flat s. exact H.
Qed.

Lemma isLoadingIn_insert_DONE (rs : list FileReader.t) (reader x : nat) (f : File.t) :
  isLoadingIn (<[reader := FileReader.mk f DONE]> rs) x
  = negb (Nat.eqb x reader) && isLoadingIn rs x.
Proof.
  unfold isLoadingIn. destruct (Nat.eqb_spec x reader) as [->|Hne]; simpl.
  - destruct (decide (reader < length rs)) as [Hlt|Hge].
    + rewrite list_lookup_insert_eq by exact Hlt. reflexivity.
    + rewrite list_insert_ge by lia. rewrite (lookup_ge_None_2 rs reader) by lia.
      reflexivity.
  - rewrite list_lookup_insert_ne by congruence. reflexivity.
Qed.

Lemma loading_finish (reader : nat) (fr : FileReader.t) (s : t) :
  loading (finish reader fr s)
  = List.filter (fun x => negb (Nat.eqb x reader)) (loading s).
Proof.
  unfold loading, finish. flat s. rewrite length_insert.
  induction (seq 0 (length readers0)) as [|x l IH]; [reflexivity|]. simpl.
  rewrite IH, isLoadingIn_insert_DONE.
  destruct (isLoadingIn readers0 x); simpl;
    destruct (Nat.eqb x reader); reflexivity.
Qed.

Lemma remove_first_occurrence (r : nat) (l : list nat) :
  NoDup l ->
  match JS.indexOf r l with Some i => delete i l | None => l end
  = List.filter (fun x => negb (Nat.eqb x r)) l.
Proof.
  induction 1 as [|y l Hy Hl IH]; [reflexivity|]. simpl.
  destruct (Nat.eqb_spec y r) as [->|Hne]; simpl.
  - symmetry. clear IH. induction l as [|z l IHl]; [reflexivity|]. simpl.
    destruct (Nat.eqb_spec z r) as [->|_]; simpl.
    + contradiction Hy. left.
    + f_equal. apply IHl.
      * intros Hin. apply Hy. right. exact Hin.
      * inversion Hl; assumption.
  - destruct (JS.indexOf r l) as [i|]; simpl in *; rewrite <- IH; reflexivity.
Qed.

Lemma NoDup_loading (s : t) : NoDup (loading s).
Proof. apply NoDup_ListNoDup, List.NoDup_filter, List.seq_NoDup. Qed.

Lemma loading_cleanupReader reader s : loading (cleanupReader reader s) = loading s.
Proof.
  unfold cleanupReader.
  destruct (JS.indexOf reader (activeReaders s));
    match goal with |- context [Nat.eqb ?a ?b] => destruct (Nat.eqb a b) end;
    flat s; reflexivity.
Qed.

Lemma activeReaders_cleanupReader reader s :
  activeReaders (cleanupReader reader s)
  = match JS.indexOf reader (activeReaders s) with
    | Some i => delete i (activeReaders s)
    | None => activeReaders s
    end.
Proof.
  unfold cleanupReader.
  destruct (JS.indexOf reader (activeReaders s));
    match goal with |- context [Nat.eqb ?a ?b] => destruct (Nat.eqb a b) end;
    flat s; reflexivity.
Qed.

(** Resolving a loading reader takes it out of both lists. *)
Lemma tracked_resolve reader fr (s s1 : t) :
  activeReaders s = loading s ->
  activeReaders s1 = activeReaders (finish reader fr s) ->
  readers s1 = readers (finish reader fr s) ->
  activeReaders (cleanupReader reader s1) = loading (cleanupReader reader s1).
Proof.
  intros H Ha Hr. rewrite loading_cleanupReader, activeReaders_cleanupReader, Ha.
  assert (Hl : loading s1 = loading (finish reader fr s))
    by (unfold loading; rewrite Hr; reflexivity).
  rewrite Hl, loading_finish.
  replace (activeReaders (finish reader fr s)) with (loading s) by (flat s; auto).
  apply remove_first_occurrence, NoDup_loading.
Qed.

(** In a state reached without cancelling, [activeReaders] lists exactly
    the readers that are still loading, in the order they were started. *)
Lemma activeReaders_are_the_loading_readers (s : t) :
  reachableWithoutCancel s -> activeReaders s = loading s.
Proof.
  induction 1 as [|e s He _ IH]; [reflexivity|].
  destruct e; simpl in *; try discriminate.
  - flat s; exact IH.
  - unfold handleFileChange. destruct (Nat.ltb 0 _); [|exact IH].
    apply tracked_processFiles, IH.
  - unfold handlePaste. destruct (Nat.ltb 0 _); [|exact IH].
    apply tracked_processFiles, IH.
  - unfold onDrop.
    assert (H' : activeReaders (setIsDragging false s) = loading (setIsDragging false s))
      by (flat s; exact IH).
    destruct (Nat.ltb 0 _); [|exact H']. apply tracked_processFiles, H'.
  - flat s; exact IH.
  - flat s; exact IH.
  - unfold fireLoad. destruct (readers s !! reader) as [[f []]|]; try exact IH.
    unfold onload.
    apply (tracked_resolve reader (FileReader.mk f LOADING) s); [exact IH|..];
      flat s; reflexivity.
  - unfold fireError. destruct (readers s !! reader) as [[f []]|]; try exact IH.
    unfold onerror.
    apply (tracked_resolve reader (FileReader.mk f LOADING) s); [exact IH|..];
      flat s; reflexivity.
  - flat s; exact IH.
  - unfold handleSend. destruct (sendBlocked p s); simpl; [exact IH|]. flat s; exact IH.
Qed.


End ProcessingFlag.

(** ** Cancellation *)

Section Cancellation.

Import InputArea.

Local Ltac flat s := destruct s; simpl in *.

(** With nothing tracked and the flag down, cancelling changes nothing. *)
Lemma cancelUpload_idle (s : t) :
  activeReaders s = [] -> isProcessing s = false -> cancelUpload s = s.
Proof. unfold cancelUpload. intros Ha Hp. flat s. subst. reflexivity. Qed.

(** Whatever is tracked, cancelling empties the list and lowers the flag. *)
Lemma cancelUpload_clears (s : t) :
  activeReaders (cancelUpload s) = [] /\ isProcessing (cancelUpload s) = false.
Proof. split; reflexivity. Qed.

(** The loop never touches the attachments. *)
Lemma cleanupReader_attachments reader s :
  attachments (cleanupReader reader s) = attachments s.
Proof.
  unfold cleanupReader.
  destruct (JS.indexOf reader (activeReaders s));
    match goal with |- context [Nat.eqb ?a ?b] => destruct (Nat.eqb a b) end;
    flat s; reflexivity.
Qed.

Lemma abort_attachments reader s : attachments (abort reader s) = attachments s.
Proof.
  unfold abort, onabort. destruct (readers s !! reader) as [[f []]|]; try reflexivity.
  rewrite cleanupReader_attachments. flat s. reflexivity.
Qed.

Lemma forEachAbort_attachments turns k s :
  attachments (forEachAbort turns k s) = attachments s.
Proof.
  revert k s. induction turns as [|n IH]; intros k s; simpl; [reflexivity|].
  rewrite IH. destruct (activeReaders s !! k); [apply abort_attachments|reflexivity].
Qed.

Lemma clearAttachments_clears (s : t) :
  clearAttachments s = setAttachments [] (cancelUpload s)
  /\ attachments (clearAttachments s) = []
  /\ activeReaders (clearAttachments s) = []
  /\ isProcessing (clearAttachments s) = false.
Proof. repeat split. Qed.

(** A single tracked reader is aborted. *)
Example cancelUpload_one_reader :
  let s := cancelUpload (processFiles [imageA] init) in
  loading s = [] /\ attachments (fireLoad 0 s) = [].
Proof. vm_compute. tauto. Qed.

(** C6 fails on the code: with two readers tracked, aborting the first one
    fires its [abort] handler inside the loop, which splices the array the
    loop is walking; the second reader moves to index 0 and the turn for
    index 1 finds nothing. After [cancelUpload] (and after
    [clearAttachments]) the second reader is still loading, tracked by
    nobody, and its result is appended to the attachments once it
    arrives. *)
Theorem cancelUpload_skips_the_second_reader :
  let s := step (FilesChosen twoImages) init in
  reachable s
  /\ activeReaders s = [0; 1]
  /\ loading s = [0; 1]
  /\ activeReaders (cancelUpload s) = []
  /\ isProcessing (cancelUpload s) = false
  /\ loading (cancelUpload s) = [1]
  /\ map Attachment.name (attachments (fireLoad 1 (cancelUpload s))) = [Some "b.png"]
  /\ attachments (clearAttachments s) = []
  /\ loading (clearAttachments s) = [1]
  /\ map Attachment.name (attachments (fireLoad 1 (clearAttachments s))) = [Some "b.png"].
Proof.
  split; [apply reachable_step, reachable_init|]. vm_compute. tauto.
Qed.

(** Of three tracked readers the loop aborts the first and the third. *)
Example cancelUpload_three_readers :
  let s := cancelUpload (processFiles [imageA; imageB; imageC] init) in
  loading s = [1].
Proof. vm_compute. reflexivity. Qed.

End Cancellation.

(** ** Sending *)

Section Sending.

Import InputArea.

Local Ltac flat s := destruct s; simpl in *.

Lemma truthy_false (x : string) : JS.truthy x = false <-> x = "".
Proof. destruct x; simpl; split; congruence. Qed.

(** The guard of [handleSend], read as the conditions it tests. *)
Lemma sendBlocked_iff (p : Props) (s : t) :
  sendBlocked p s = true <->
  (JS.trim (input s) = "" /\ attachments s = [])
  \/ isLoading p = true \/ isProcessing s = true.
Proof.
  unfold sendBlocked.
  rewrite !orb_true_iff, andb_true_iff, negb_true_iff, truthy_false, Nat.eqb_eq.
  rewrite length_zero_iff_nil. tauto.
Qed.

(** The auto-speak effect only schedules a timer. *)
Lemma autoSpeakEffect_messages (a : App.t) :
  App.messages (App.autoSpeakEffect a) = App.messages a.
Proof.
  unfold App.autoSpeakEffect.
  destruct (negb (App.autoSpeak a) || Nat.eqb (length (App.messages a)) 0);
    [reflexivity|].
  destruct (last (App.messages a)) as [m|]; [|reflexivity].
  destruct (App.isModel m && _); destruct a; reflexivity.
Qed.

(** C10: [handleSend] changes nothing -- neither the messages, nor the
    input text, nor the attachments, nor anything else -- when the trimmed
    input is empty and there is no attachment, or a chat request is
    loading, or conversions are in flight; in every other state it appends
    the user's message (the input as typed, or the quoting text, with the
    attachments) to the messages and empties the input and the
    attachments. *)
Theorem handleSend_is_noop_when_blocked (now : Z) (ui : UI.t) :
  let p := UI.props (UI.app ui) in
  let s := UI.inputArea ui in
  let ui' := UI.handleSend now ui in
  (sendBlocked p s = true <->
     (JS.trim (input s) = "" /\ attachments s = [])
     \/ App.isLoading (UI.app ui) = true \/ isProcessing s = true)
  /\ if sendBlocked p s then ui' = ui
     else
       App.messages (UI.app ui')
         = (App.messages (UI.app ui)
            ++ [Message.mk (JS.toString now) user
                  match App.quotedMessage (UI.app ui) with
                  | Some q => quoteText q (input s)
                  | None => input s
                  end
                  (Some (attachments s)) now])%list
       /\ input (UI.inputArea ui') = ""
       /\ attachments (UI.inputArea ui') = [].
Proof.
  intros p s ui'. split; [apply sendBlocked_iff|].
  subst ui'. unfold UI.handleSend, handleSend. fold p s.
  destruct (sendBlocked p s) eqn:Hb.
  - destruct ui; reflexivity.
  - subst p s. destruct ui as [a ia]. simpl.
    destruct (App.quotedMessage a) as [q|] eqn:Hq; simpl;
      unfold App.handleSendMessage; rewrite autoSpeakEffect_messages;
      (destruct (JS.truthy _); destruct a; simpl in *; repeat split).
Qed.

End Sending.

(** ** Data URLs and base64 *)

Section DataURL.












Lemma append_assoc (a b c : string) : (a ++ b) ++ c = a ++ b ++ c.
Proof.
  induction a as [|x a IH]; [reflexivity|].
  change (String x ((a ++ b) ++ c) = String x (a ++ b ++ c)). f_equal. exact IH.
Qed.







Import InputArea.




End DataURL.

(** ** Speech playback *)

Section Playback.

Import App.

Local Ltac flat s := destruct s; simpl in *.

(** Take a handler apart along its branches. *)
Local Ltac branches :=
  repeat match goal with
         | |- context [match ?x with _ => _ end] => destruct x eqn:?
         end.

Lemma reachable_run (es : list Event) (s : t) : reachable s -> reachable (run es s).
Proof.
  revert s. induction es as [|e es IH]; intros s H; [exact H|].
  apply IH, reachable_step, H.
Qed.

(** *** The source reference is never set *)

Lemma stopAudio_activeSourceRef s : activeSourceRef (stopAudio s) = None.
Proof. unfold stopAudio. branches; simpl; congruence. Qed.

Lemma catch_activeSourceRef cl s : activeSourceRef (catch cl s) = activeSourceRef s.
Proof. unfold catch. branches; reflexivity. Qed.

Lemma handleSpeak_activeSourceRef fresh cl m s :
  activeSourceRef (handleSpeak fresh cl m s) = None.
Proof.
  unfold handleSpeak.
  destruct (sameId _ _); [apply stopAudio_activeSourceRef|].
  pose proof (stopAudio_activeSourceRef s) as H.
  destruct (stopAudio s); simpl in *. subst.
  destruct audioContextRef0 as [[]|]; destruct fresh as [[]|];
    rewrite ?catch_activeSourceRef; reflexivity.
Qed.

Lemma settle_activeSourceRef call o s :
  activeSourceRef s = None -> activeSourceRef (settle call o s) = None.
Proof.
  intros H. unfold settle, playAudioBuffer.
  branches; try exact H; try (rewrite catch_activeSourceRef; exact H);
    flat s; try exact H; reflexivity.
Qed.

Lemma autoSpeakEffect_activeSourceRef s :
  activeSourceRef (autoSpeakEffect s) = activeSourceRef s.
Proof. unfold autoSpeakEffect. branches; reflexivity. Qed.

Lemma mount_activeSourceRef now saved savedSpeed savedVoice :
  activeSourceRef (mount now saved savedSpeed savedVoice) = None.
Proof. unfold mount, loadSettings. branches; reflexivity. Qed.

Lemma step_activeSourceRef e s :
  activeSourceRef s = None -> activeSourceRef (step e s) = None.
Proof.
  intros H. destruct e; simpl.
  - branches; try exact H. apply handleSpeak_activeSourceRef.
  - branches; try exact H. apply handleSpeak_activeSourceRef.
  - apply settle_activeSourceRef, H.
  - unfold toggleAutoSpeak. rewrite autoSpeakEffect_activeSourceRef. exact H.
  - exact H.
  - exact H.
  - unfold initNewChat. rewrite autoSpeakEffect_activeSourceRef. exact H.
  - branches; exact H.
  - exact H.
  - unfold handleSendMessage. rewrite autoSpeakEffect_activeSourceRef.
    branches; exact H.
  - unfold chatSettled. rewrite autoSpeakEffect_activeSourceRef.
    branches; exact H.
Qed.

(** No handler ever stores a source in [activeSourceRef]: it is empty in
    every reachable state. *)
Lemma reachable_activeSourceRef (s : t) : reachable s -> activeSourceRef s = None.
Proof.
  induction 1 as [|e s _ IH]; [apply mount_activeSourceRef|].
  apply step_activeSourceRef, IH.
Qed.

(** Hence [stopAudio] only clears the speaking id: what sounds keeps
    sounding, and the invocations in flight stay in flight. *)
Lemma stopAudio_halts_nothing (s : t) :
  reachable s ->
  stopAudio s = setIsSpeakingId None s
  /\ audible (stopAudio s) = audible s
  /\ inFlight (stopAudio s) = inFlight s.
Proof.
  intros H%reachable_activeSourceRef. unfold stopAudio. rewrite H.
  repeat split.
Qed.

(** *** The read-aloud button of the speaking message is disabled *)

Lemma stopAudio_isSpeakingId s : isSpeakingId (stopAudio s) = None.
Proof. reflexivity. Qed.

Lemma catch_isSpeakingId cl s : isSpeakingId (catch cl s) = None.
Proof. reflexivity. Qed.

Lemma handleSpeak_speakingIsLoading fresh cl m s :
  speakingIsLoading (handleSpeak fresh cl m s).
Proof.
  unfold speakingIsLoading, handleSpeak.
  destruct (sameId _ _); [intros H; contradiction H; reflexivity|].
  destruct (stopAudio s); simpl.
  destruct audioContextRef0 as [[]|]; destruct fresh as [[]|];
    simpl; try reflexivity; intros H; contradiction H; reflexivity.
Qed.

Lemma settle_speakingIsLoading call o s :
  speakingIsLoading s -> speakingIsLoading (settle call o s).
Proof.
  unfold speakingIsLoading, settle, playAudioBuffer. intros H.
  branches; try exact H;
    try (intros H'; contradiction H'; reflexivity);
    flat s; exact H.
Qed.

Lemma autoSpeakEffect_speakingIsLoading s :
  speakingIsLoading s -> speakingIsLoading (autoSpeakEffect s).
Proof. unfold speakingIsLoading, autoSpeakEffect. intros H. branches; exact H. Qed.

Lemma step_speakingIsLoading e s :
  speakingIsLoading s -> speakingIsLoading (step e s).
Proof.
  intros H. destruct e; simpl.
  - branches; try exact H. apply handleSpeak_speakingIsLoading.
  - branches; try exact H. apply handleSpeak_speakingIsLoading.
  - apply settle_speakingIsLoading, H.
  - apply autoSpeakEffect_speakingIsLoading. exact H.
  - exact H.
  - exact H.
  - apply autoSpeakEffect_speakingIsLoading. exact H.
  - branches; exact H.
  - exact H.
  - apply autoSpeakEffect_speakingIsLoading. unfold speakingIsLoading in *.
    branches; exact H.
  - apply autoSpeakEffect_speakingIsLoading. unfold speakingIsLoading in *.
    branches; exact H.
Qed.

Lemma reachable_speakingIsLoading (s : t) : reachable s -> speakingIsLoading s.
Proof.
  induction 1 as [now saved savedSpeed savedVoice|e s _ IH].
  - unfold speakingIsLoading, mount, loadSettings, initNewChat.
    intros H. contradiction H.
    repeat match goal with
           | |- context [match ?x with _ => _ end] => destruct x
           end; reflexivity.
  - apply step_speakingIsLoading, IH.
Qed.

(** So a click on the button of the speaking message does nothing: the
    toggle branch of [handleSpeak] is only entered from a timer of the
    auto-speak effect. *)
Lemma click_on_speaking_message_is_ignored (s : t) (index : nat) (m : Message.t)
    (fresh : option ContextState) :
  reachable s ->
  messages s !! index = Some m ->
  isSpeakingId s = Some (Message.id m) ->
  step (Click index fresh) s = s.
Proof.
  intros Hr Hm Hid. pose proof (reachable_speakingIsLoading s Hr) as Hl.
  unfold speakingIsLoading in Hl. rewrite Hid in Hl.
  simpl. rewrite Hm. unfold speakEnabled, sameId. rewrite Hid, Hl by discriminate.
  rewrite String.eqb_refl. simpl. rewrite andb_false_r. reflexivity.
Qed.

(** *** The claims on sessions *)

(** C1 fails on the code: reading a second message aloud while the first
    is playing clears the speaking id but halts nothing, so once the
    second speech has arrived two sources sound together; and when the
    first ends it clears the speaking id while the second still sounds.
    The same happens when the second call is made while the first speech
    is still requested: the superseded result is played all the same. *)
Theorem superseded_speech_is_still_played :
  let s := run supersedeTrace answered in
  let s' := step (Settle 0 Ended) s in
  let r := run overlapTrace answered in
  reachable s
  /\ map Message.id (messages s) = ["welcome"; "1"; "3"]
  /\ length (inFlight s) = 2
  /\ map Source.owner (audible s) = ["welcome"; "3"]
  /\ isSpeakingId s = Some "3"
  /\ isSpeakingId s' = None
  /\ map Source.owner (audible s') = ["3"]
  /\ reachable r
  /\ map Source.owner (audible r) = ["welcome"; "3"].
Proof.
  split; [apply reachable_run, reachable_run, reachable_mount|].
  do 6 (split; [vm_compute; reflexivity|]).
  split; [apply reachable_run, reachable_run, reachable_mount|].
  vm_compute. reflexivity.
Qed.

(** C2 fails on the code: a second [handleSpeak] for the speaking message
    clears the speaking id and returns, but it halts nothing. If the
    audio is already playing it keeps playing; if the speech is still
    requested it is played when it arrives. *)
Theorem second_speak_does_not_silence :
  let playing := run playingTrace started in
  let requesting := step (Click 0 (Some running)) started in
  let late := [Settle 0 (Speech (Some "AAAA")); Settle 0 Decoded] in
  reachable (run secondCall playing)
  /\ isSpeakingId playing = Some "welcome"
  /\ isSpeakingId (run secondCall playing) = None
  /\ map Source.owner (audible (run secondCall playing)) = ["welcome"]
  /\ isSpeakingId requesting = Some "welcome"
  /\ isSpeakingId (run secondCall requesting) = None
  /\ audible (run secondCall requesting) = []
  /\ length (inFlight (run secondCall requesting)) = 1
  /\ isSpeakingId (run late (run secondCall requesting)) = None
  /\ map Source.owner (audible (run late (run secondCall requesting))) = ["welcome"].
Proof.
  split; [apply reachable_run, reachable_run, reachable_mount|].
  vm_compute. tauto.
Qed.

(** The same two calls made directly, with nothing in between. *)
Example handleSpeak_twice :
  let s1 := handleSpeak (Some running) (render started) (welcome 0) started in
  let s2 := handleSpeak (Some running) (render s1) (welcome 0) s1 in
  isSpeakingId s2 = None /\ audible s2 = [] /\ length (inFlight s2) = 1.
Proof. vm_compute. tauto. Qed.

(** *** Failures *)

Lemma audible_setStage call c st s : audible (setStage call c st s) = audible s.
Proof. reflexivity. Qed.

(** What the [catch] block does. *)
Lemma catch_spec (cl : Closure) (s : t) :
  isSpeakingId (catch cl s) = None
  /\ speakingLoading (catch cl s) = false
  /\ console (catch cl s) = (console s ++ ["TTS Error:"])%list
  /\ alerts (catch cl s)
     = (if c_autoSpeak cl then alerts s else alerts s ++ [failureAlert])%list
  /\ sources (catch cl s) = sources s
  /\ calls (catch cl s) = calls s.
Proof. unfold catch. destruct (c_autoSpeak cl); repeat split. Qed.

(** C8 as stated fails: when auto-speak is on, a failed synthesis is
    written to the console and no alert is shown. *)
Lemma speech_failure_under_autoSpeak_is_silent :
  let s := run autoSpeakTrace started in
  let s' := step (Settle 0 (Speech None)) s in
  isSpeakingId s = Some "welcome"
  /\ autoSpeak s = true
  /\ alerts s' = []
  /\ console s' = ["TTS Error:"]
  /\ isSpeakingId s' = None.
Proof. vm_compute. tauto. Qed.

(** C8, amended: a missing or empty speech payload is a failure; every
    failure -- a rejected promise, a missing, empty or undecodable payload
    -- ends the invocation, clears the speaking id and the loading flag,
    plays nothing and is written to the console; it is shown to the user
    in an alert exactly if auto-speak was off when the call was made. *)
Theorem speech_failure_returns_to_idle
    (s : t) (call : nat) (c : Call.t) (o : Outcome)
    (Hcall : calls s !! call = Some c)
    (Hfail : failing (Call.stage c) o = true) :
  let s' := settle call o s in
  failing AwaitSpeech (Speech None) = true
  /\ failing AwaitSpeech (Speech (Some "")) = true
  /\ isSpeakingId s' = None
  /\ speakingLoading s' = false
  /\ calls s' !! call = Some (Call.mk (Call.closure c) (Call.message c) Returned)
  /\ audible s' = audible s
  /\ console s' = (console s ++ ["TTS Error:"])%list
  /\ alerts s'
     = (if c_autoSpeak (Call.closure c) then alerts s
        else alerts s ++ [failureAlert])%list.
Proof.
  intros s'. split; [reflexivity|]. split; [reflexivity|].
  assert (Hs : s' = catch (Call.closure c) (setStage call c Returned s)).
  { subst s'. unfold settle. rewrite Hcall. unfold failing in Hfail.
    destruct (Call.stage c), o as [| | [b|] | | | |]; try discriminate; try reflexivity.
    destruct (JS.truthy b); simpl in *; [|reflexivity].
    destruct (decodeBase64 b); [discriminate|reflexivity]. }
  rewrite Hs.
  destruct (catch_spec (Call.closure c) (setStage call c Returned s))
    as (Hi & Hl & Hc & Ha & Hsrc & Hcalls).
  rewrite Hi, Hl, Hc, Ha. repeat split.
  - rewrite Hcalls. simpl. apply list_lookup_insert_eq.
    apply lookup_lt_Some in Hcall. exact Hcall.
  - unfold audible. rewrite Hsrc. reflexivity.
Qed.

(** The theorem at a missing payload for the welcome message. *)
Lemma speech_failure_returns_to_idle_witness :
  let s := step (Click 0 (Some running)) started in
  let s' := settle 0 (Speech None) s in
  calls s !! 0%nat = Some (Call.mk (render started) (welcome 0) AwaitSpeech)
  /\ isSpeakingId s' = None
  /\ speakingLoading s' = false
  /\ alerts s' = [failureAlert].
Proof.
  pose proof (speech_failure_returns_to_idle
                (step (Click 0 (Some running)) started) 0
                (Call.mk (render started) (welcome 0) AwaitSpeech)
                (Speech None) eq_refl eq_refl) as H.
  cbv zeta in H. destruct H as (_ & _ & Hi & Hl & _ & _ & _ & Ha).
  split; [reflexivity|]. split; [exact Hi|]. split; [exact Hl|exact Ha].
Defined.

(** A context that cannot be constructed fails the call on the spot. *)
Example handleSpeak_without_audio_context :
  let s := handleSpeak None (render started) (welcome 0) started in
  isSpeakingId s = None /\ speakingLoading s = false
  /\ alerts s = [failureAlert] /\ inFlight s = [].
Proof. vm_compute. tauto. Qed.

End Playback.

(** ** The speed setting *)

Section Settings.

Import App Number.






End Settings.

(** * Further properties *)

(** ** Removing and completing attachments *)

Section Attachments.

Import InputArea InputAreaView.

Local Ltac flat s := destruct s; simpl in *.

Lemma filterIndexFrom_above {A} (l : list A) (k j : nat) :
  k < j -> JSLib.filterIndexFrom (fun _ i => negb (Nat.eqb i k)) j l = l.
Proof.
  revert j. induction l as [|x l IH]; intros j Hj; [reflexivity|].
  cbn [JSLib.filterIndexFrom]. destruct (Nat.eqb_spec j k); [lia|].
  cbn [negb]. f_equal. apply IH. lia.
Qed.

Lemma filterIndexFrom_delete {A} (l : list A) (k index : nat) :
  JSLib.filterIndexFrom (fun _ i => negb (Nat.eqb i (k + index))) k l
  = delete index l.
Proof.
  revert k index. induction l as [|x l IH]; intros k index; [reflexivity|].
  cbn [JSLib.filterIndexFrom]. destruct index as [|index].
  - rewrite Nat.add_0_r, Nat.eqb_refl. cbn [negb].
    apply filterIndexFrom_above. lia.
  - destruct (Nat.eqb_spec k (k + S index)); [lia|]. cbn [negb].
    replace (k + S index) with (S k + index) by lia. rewrite IH. reflexivity.
Qed.

Lemma delete_past_the_end {A} (l : list A) (i : nat) :
  length l <= i -> delete i l = l.
Proof.
  intros H. rewrite delete_take_drop, take_ge, drop_ge, app_nil_r by lia.
  reflexivity.
Qed.

(** X1: [removeAttachment], written as a filter over positions, removes
    the attachment at [index] and keeps the others in order; an index past
    the end removes nothing; readers and the processing flag are never
    touched. *)
Theorem removeAttachment_removes_one_position (index : nat) (s : t) :
  let s' := removeAttachment index s in
  attachments s'
  = JSLib.filterIndex (fun _ i => negb (Nat.eqb i index)) (attachments s)
  /\ (if Nat.ltb index (length (attachments s)) then
        S (length (attachments s')) = length (attachments s)
        /\ forall j, attachments s' !! j
                     = if Nat.ltb j index then attachments s !! j
                       else attachments s !! S j
      else s' = s)
  /\ activeReaders s' = activeReaders s
  /\ readers s' = readers s
  /\ isProcessing s' = isProcessing s.
Proof.
  intros s'. subst s'. unfold removeAttachment.
  split; [|split; [|flat s; repeat split]].
  - unfold JSLib.filterIndex.
    rewrite <- (filterIndexFrom_delete (attachments s) 0 index). flat s. reflexivity.
  - destruct (Nat.ltb_spec index (length (attachments s))) as [Hlt|Hge].
    + split.
      * flat s. rewrite length_delete; [lia|]. apply lookup_lt_is_Some_2. exact Hlt.
      * intros j. flat s. destruct (Nat.ltb_spec j index).
        -- apply list_lookup_delete_lt. assumption.
        -- apply list_lookup_delete_ge. assumption.
    + flat s. unfold setAttachments. simpl.
      rewrite delete_past_the_end by lia. reflexivity.
Qed.

(** *** A read that completes *)

Lemma readers_cleanupReader reader s : readers (cleanupReader reader s) = readers s.
Proof.
  unfold cleanupReader.
  destruct (JS.indexOf reader (activeReaders s));
    match goal with |- context [Nat.eqb ?a ?b] => destruct (Nat.eqb a b) end;
    flat s; reflexivity.
Qed.

Lemma alerts_cleanupReader reader s : alerts (cleanupReader reader s) = alerts s.
Proof.
  unfold cleanupReader.
  destruct (JS.indexOf reader (activeReaders s));
    match goal with |- context [Nat.eqb ?a ?b] => destruct (Nat.eqb a b) end;
    flat s; reflexivity.
Qed.

Lemma console_cleanupReader reader s : console (cleanupReader reader s) = console s.
Proof.
  unfold cleanupReader.
  destruct (JS.indexOf reader (activeReaders s));
    match goal with |- context [Nat.eqb ?a ?b] => destruct (Nat.eqb a b) end;
    flat s; reflexivity.
Qed.

Lemma loading_readers (s1 s2 : t) : readers s1 = readers s2 -> loading s1 = loading s2.
Proof. unfold loading. intros ->. reflexivity. Qed.

(** What the completion of a loading reader does. *)
Lemma fireLoad_spec (s : t) (reader : nat) (f : File.t) :
  readers s !! reader = Some (FileReader.mk f LOADING) ->
  attachments (fireLoad reader s) = (attachments s ++ [attachmentOf f])%list
  /\ readers (fireLoad reader s) = <[reader := FileReader.mk f DONE]> (readers s)
  /\ loading (fireLoad reader s)
     = List.filter (fun x => negb (Nat.eqb x reader)) (loading s)
  /\ alerts (fireLoad reader s) = alerts s
  /\ console (fireLoad reader s) = console s.
Proof.
  intros H. unfold fireLoad. rewrite H. unfold onload.
  rewrite cleanupReader_attachments, readers_cleanupReader, alerts_cleanupReader,
    console_cleanupReader, loading_cleanupReader.
  repeat split; try (flat s; reflexivity).
  rewrite <- (loading_finish reader (FileReader.mk f LOADING) s).
  apply loading_readers. flat s. reflexivity.
Qed.

Lemma fireError_spec (s : t) (reader : nat) (f : File.t) :
  readers s !! reader = Some (FileReader.mk f LOADING) ->
  attachments (fireError reader s) = attachments s
  /\ readers (fireError reader s) = <[reader := FileReader.mk f DONE]> (readers s)
  /\ loading (fireError reader s)
     = List.filter (fun x => negb (Nat.eqb x reader)) (loading s)
  /\ alerts (fireError reader s) = alerts s
  /\ console (fireError reader s) = (console s ++ ["Error reading file"])%list.
Proof.
  intros H. unfold fireError. rewrite H. unfold onerror.
  rewrite cleanupReader_attachments, readers_cleanupReader, alerts_cleanupReader,
    console_cleanupReader, loading_cleanupReader.
  repeat split; try (flat s; reflexivity).
  rewrite <- (loading_finish reader (FileReader.mk f LOADING) s).
  apply loading_readers. flat s. reflexivity.
Qed.

Lemma lookup_done_elsewhere (rs : list FileReader.t) (reader r' : nat) (f : File.t) :
  r' <> reader -> <[reader := FileReader.mk f DONE]> rs !! r' = rs !! r'.
Proof. intros H. apply list_lookup_insert_ne. congruence. Qed.

(** X2: when the read of a loading reader completes, exactly one attachment
    -- the one built from that reader's file -- is appended at the end of
    the list, the reader stops loading, every other reader is left as it
    was, nothing is alerted, and a second completion of the same reader
    does nothing. *)
Theorem load_appends_one_attachment_last
    (s : t) (reader : nat) (f : File.t)
    (Hloading : readers s !! reader = Some (FileReader.mk f LOADING)) :
  let s' := fireLoad reader s in
  attachments s' = (attachments s ++ [attachmentOf f])%list
  /\ loading s' = List.filter (fun x => negb (Nat.eqb x reader)) (loading s)
  /\ (forall r', r' <> reader -> readers s' !! r' = readers s !! r')
  /\ alerts s' = alerts s
  /\ fireLoad reader s' = s'.
Proof.
  intros s'. subst s'.
  destruct (fireLoad_spec s reader f Hloading) as (Ha & Hr & Hl & Hal & _).
  repeat split; try assumption.
  - intros r' Hne. rewrite Hr. apply lookup_done_elsewhere, Hne.
  - unfold fireLoad at 1. rewrite Hr, list_lookup_insert_eq; [reflexivity|].
    apply lookup_lt_Some in Hloading. exact Hloading.
Qed.

(** The theorem at the second of three loading readers. *)
Lemma load_appends_one_attachment_last_witness :
  readers threeLoading !! 1%nat = Some (FileReader.mk imageB LOADING)
  /\ map Attachment.name (attachments (fireLoad 1 threeLoading)) = [Some "b.png"]
  /\ loading (fireLoad 1 threeLoading) = [0; 2].
Proof.
  split; [reflexivity|].
  destruct (load_appends_one_attachment_last threeLoading 1 imageB eq_refl)
    as (Ha & Hl & _).
  rewrite Ha, Hl. split; reflexivity.
Defined.

(** X3: when the read of a loading reader fails, no attachment is added and
    nothing is alerted; the failure is written to the console, the reader
    stops loading, and every other reader is left as it was, still
    loading if it was. *)
Theorem read_failure_drops_only_that_file
    (s : t) (reader : nat) (f : File.t)
    (Hloading : readers s !! reader = Some (FileReader.mk f LOADING)) :
  let s' := fireError reader s in
  attachments s' = attachments s
  /\ alerts s' = alerts s
  /\ console s' = (console s ++ ["Error reading file"])%list
  /\ loading s' = List.filter (fun x => negb (Nat.eqb x reader)) (loading s)
  /\ (forall r', r' <> reader -> readers s' !! r' = readers s !! r')
  /\ fireLoad reader s' = s'.
Proof.
  intros s'. subst s'.
  destruct (fireError_spec s reader f Hloading) as (Ha & Hr & Hl & Hal & Hc).
  repeat split; try assumption.
  - intros r' Hne. rewrite Hr. apply lookup_done_elsewhere, Hne.
  - unfold fireLoad at 1. rewrite Hr, list_lookup_insert_eq; [reflexivity|].
    apply lookup_lt_Some in Hloading. exact Hloading.
Qed.

(** The theorem at the first of three loading readers. *)
Lemma read_failure_drops_only_that_file_witness :
  readers threeLoading !! 0%nat = Some (FileReader.mk imageA LOADING)
  /\ attachments (fireError 0 threeLoading) = []
  /\ loading (fireError 0 threeLoading) = [1; 2].
Proof.
  split; [reflexivity|].
  destruct (read_failure_drops_only_that_file threeLoading 0 imageA eq_refl)
    as (Ha & _ & _ & Hl & _).
  rewrite Ha, Hl. split; reflexivity.
Defined.

(** *** Several reads completing, in any order *)

Lemma fileOf_fireLoad (s : t) (reader r' : nat) (f : File.t) :
  readers s !! reader = Some (FileReader.mk f LOADING) ->
  fileOf (fireLoad reader s) r' = fileOf s r'.
Proof.
  intros H. destruct (fireLoad_spec s reader f H) as (_ & Hr & _).
  unfold fileOf. rewrite Hr. destruct (decide (r' = reader)) as [->|Hne].
  - rewrite list_lookup_insert_eq by (apply lookup_lt_Some in H; exact H).
    rewrite H. reflexivity.
  - rewrite list_lookup_insert_ne by congruence. reflexivity.
Qed.

Lemma isLoadingIn_fireLoad (s : t) (reader r' : nat) (f : File.t) :
  readers s !! reader = Some (FileReader.mk f LOADING) ->
  isLoadingIn (readers (fireLoad reader s)) r'
  = negb (Nat.eqb r' reader) && isLoadingIn (readers s) r'.
Proof.
  intros H. destruct (fireLoad_spec s reader f H) as (_ & Hr & _).
  rewrite Hr. apply isLoadingIn_insert_DONE.
Qed.

Lemma isLoadingIn_Some (rs : list FileReader.t) (r : nat) :
  isLoadingIn rs r = true -> exists f, rs !! r = Some (FileReader.mk f LOADING).
Proof.
  unfold isLoadingIn. destruct (rs !! r) as [[f []]|]; try discriminate.
  intros _. exists f. reflexivity.
Qed.

Lemma filter_filter_among (order : list nat) (reader : nat) (l : list nat) :
  List.filter (fun x => negb (among order x))
    (List.filter (fun x => negb (Nat.eqb x reader)) l)
  = List.filter (fun x => negb (among (reader :: order) x)) l.
Proof.
  induction l as [|x l IH]; [reflexivity|]. simpl.
  destruct (Nat.eqb x reader); simpl; rewrite IH; reflexivity.
Qed.

Lemma filter_among_nil (l : list nat) :
  List.filter (fun x => negb (among [] x)) l = l.
Proof.
  induction l as [|x l IH]; [reflexivity|].
  change (x :: List.filter (fun x => negb (among [] x)) l = x :: l).
  f_equal. exact IH.
Qed.

Lemma omap_pointwise {A B} (f g : A -> option B) (l : list A) :
  (forall x, f x = g x) -> omap f l = omap g l.
Proof.
  intros H. induction l as [|x l IH]; [reflexivity|].
  change (match f x with Some y => y :: omap f l | None => omap f l end
          = match g x with Some y => y :: omap g l | None => omap g l end).
  rewrite H, IH. reflexivity.
Qed.

(** Completions of distinct loading readers, one after the other. *)
Lemma run_Loaded_spec (order : list nat) (s : t) :
  NoDup order ->
  Forall (fun r => isLoadingIn (readers s) r = true) order ->
  attachments (run (map Loaded order) s) = (attachments s ++ delivered s order)%list
  /\ length (delivered s order) = length order
  /\ loading (run (map Loaded order) s)
     = List.filter (fun x => negb (among order x)) (loading s).
Proof.
  intros Hdistinct. revert s.
  induction Hdistinct as [|r order Hr Hnd IH]; intros s Hl.
  - simpl. rewrite app_nil_r, filter_among_nil. repeat split.
  - apply Forall_cons in Hl as [Hr1 Hl].
    destruct (isLoadingIn_Some _ _ Hr1) as [f Hf].
    destruct (fireLoad_spec s r f Hf) as (Ha & _ & Hload & _).
    change (run (map Loaded (r :: order)) s)
      with (run (map Loaded order) (fireLoad r s)).
    destruct (IH (fireLoad r s)) as (IHa & IHn & IHl).
    { apply Forall_forall. intros r' Hin.
      rewrite (isLoadingIn_fireLoad s r r' f Hf).
      rewrite Forall_forall in Hl. rewrite (Hl r' Hin), andb_true_r.
      destruct (Nat.eqb_spec r' r) as [->|_]; [contradiction|reflexivity]. }
    assert (Hd : delivered (fireLoad r s) order = delivered s order).
    { unfold delivered. apply omap_pointwise. intros x.
      rewrite (fileOf_fireLoad s r x f Hf). reflexivity. }
    rewrite Hd in IHa, IHn.
    assert (Hc : delivered s (r :: order) = attachmentOf f :: delivered s order).
    { unfold delivered. simpl. unfold fileOf at 1. rewrite Hf. reflexivity. }
    rewrite IHa, IHl, Ha, Hload, filter_filter_among, Hc, <- app_assoc.
    simpl. rewrite IHn. repeat split.
Qed.

(** X4: attachments arrive in completion order. When the reads of some
    loading readers complete one after the other, in whatever order, the
    attachments built from their files are appended in exactly that order,
    one each, and exactly those readers stop loading. *)
Theorem attachments_arrive_in_completion_order
    (order : list nat) (s : t)
    (Hdistinct : NoDup order)
    (Hloading : Forall (fun r => isLoadingIn (readers s) r = true) order) :
  let s' := run (map Loaded order) s in
  attachments s' = (attachments s ++ delivered s order)%list
  /\ length (attachments s') = length (attachments s) + length order
  /\ loading s' = List.filter (fun x => negb (among order x)) (loading s).
Proof.
  cbv zeta. destruct (run_Loaded_spec order s Hdistinct Hloading) as (Ha & Hn & Hl).
  rewrite Ha, Hl, length_app, Hn. repeat split.
Qed.

(** The theorem at three loading readers that complete as 2, 0, 1. *)
Lemma attachments_arrive_in_completion_order_witness :
  NoDup [2; 0; 1]
  /\ Forall (fun r => isLoadingIn (readers threeLoading) r = true) [2; 0; 1]
  /\ map Attachment.name (attachments (run (map Loaded [2; 0; 1]) threeLoading))
     = [Some "c.png"; Some "a.png"; Some "b.png"]
  /\ loading (run (map Loaded [2; 0; 1]) threeLoading) = [].
Proof.
  assert (Hd : NoDup [2; 0; 1]).
  { repeat constructor; rewrite ?list_elem_of_In; simpl; intuition discriminate. }
  assert (Hl : Forall (fun r => isLoadingIn (readers threeLoading) r = true) [2; 0; 1])
    by (repeat constructor).
  destruct (attachments_arrive_in_completion_order [2; 0; 1] threeLoading Hd Hl)
    as (Ha & _ & Hload).
  split; [exact Hd|]. split; [exact Hl|].
  rewrite Ha, Hload. split; reflexivity.
Defined.

(** *** Sending waits for the reads *)

Lemma uncancelled_reachable (s : t) : reachableWithoutCancel s -> reachable s.
Proof.
  induction 1 as [|e s _ _ IH]; [apply reachable_init|apply reachable_step, IH].
Qed.

Lemma uncancelled_run_Loaded (order : list nat) (s : t) :
  reachableWithoutCancel s -> reachableWithoutCancel (run (map Loaded order) s).
Proof.
  revert s. induction order as [|r order IH]; intros s H; [exact H|].
  apply IH. apply uncancelled_step; [reflexivity|exact H].
Qed.

(** X5: in a state reached without cancelling, as long as one read is
    still under way the processing flag is up and [handleSend] does
    nothing, whatever the text, the attachments and the props are. *)
Theorem send_waits_for_loading_readers
    (s : t) (p : Props)
    (Hreach : reachableWithoutCancel s)
    (Hpending : loading s <> []) :
  isProcessing s = true /\ handleSend p s = (s, None).
Proof.
  pose proof (activeReaders_are_the_loading_readers s Hreach) as Ht.
  pose proof (reachable_flagMatches s (uncancelled_reachable s Hreach)) as Hm.
  assert (Hp : isProcessing s = true).
  { apply (flagMatches_covers s Hm). rewrite Ht. exact Hpending. }
  split; [exact Hp|].
  unfold handleSend, sendBlocked. rewrite Hp, orb_true_r. reflexivity.
Qed.

(** The theorem at three loading readers, with text typed. *)
Lemma send_waits_for_loading_readers_witness :
  loading (step (Typed "look") threeLoading) = [0; 1; 2]
  /\ handleSend (mkProps false None) (step (Typed "look") threeLoading)
     = (step (Typed "look") threeLoading, None).
Proof.
  split; [reflexivity|].
  apply (send_waits_for_loading_readers (step (Typed "look") threeLoading)).
  - apply uncancelled_step; [reflexivity|].
    apply uncancelled_step; [reflexivity|apply uncancelled_init].
  - discriminate.
Defined.

(** X6: in a state reached without cancelling, once the reads of all
    loading readers have completed (in any order) no reader is tracked any
    more and the processing flag is down. *)
Theorem flag_falls_when_all_reads_complete
    (order : list nat) (s : t)
    (Hreach : reachableWithoutCancel s)
    (Hdistinct : NoDup order)
    (Hloading : Forall (fun r => isLoadingIn (readers s) r = true) order)
    (Hall : forall r, In r (loading s) -> In r order) :
  let s' := run (map Loaded order) s in
  loading s' = [] /\ activeReaders s' = [] /\ isProcessing s' = false.
Proof.
  cbv zeta.
  destruct (run_Loaded_spec order s Hdistinct Hloading) as (_ & _ & Hload).
  assert (Hnil : loading (run (map Loaded order) s) = []).
  { rewrite Hload. clear -Hall. induction (loading s) as [|x l IH]; [reflexivity|].
    simpl. assert (Hx : among order x = true).
    { unfold among. apply existsb_exists. exists x. split; [|apply Nat.eqb_refl].
      apply Hall. left. reflexivity. }
    rewrite Hx. simpl. apply IH. intros r Hr. apply Hall. right. exact Hr. }
  pose proof (uncancelled_run_Loaded order s Hreach) as Hreach'.
  pose proof (activeReaders_are_the_loading_readers _ Hreach') as Ht.
  pose proof (reachable_flagMatches _ (uncancelled_reachable _ Hreach')) as Hm.
  rewrite Hnil in Ht. unfold flagMatches in Hm. rewrite Ht in Hm.
  repeat split; assumption.
Qed.

(** The theorem at three loading readers that complete as 1, 2, 0. *)
Lemma flag_falls_when_all_reads_complete_witness :
  isProcessing threeLoading = true
  /\ loading threeLoading = [0; 1; 2]
  /\ isProcessing (run (map Loaded [1; 2; 0]) threeLoading) = false
  /\ activeReaders (run (map Loaded [1; 2; 0]) threeLoading) = [].
Proof.
  split; [reflexivity|]. split; [reflexivity|].
  assert (Hr : reachableWithoutCancel threeLoading)
    by (apply uncancelled_step; [reflexivity|apply uncancelled_init]).
  assert (Hd : NoDup [1; 2; 0]).
  { repeat constructor; rewrite ?list_elem_of_In; simpl; intuition discriminate. }
  assert (Hl : Forall (fun r => isLoadingIn (readers threeLoading) r = true) [1; 2; 0])
    by (repeat constructor).
  assert (Ha : forall r, In r (loading threeLoading) -> In r [1; 2; 0])
    by (simpl; intuition).
  destruct (flag_falls_when_all_reads_complete [1; 2; 0] threeLoading Hr Hd Hl Ha)
    as (_ & Hact & Hp).
  split; [exact Hp|exact Hact].
Defined.

(** *** What cancelling aborts *)

Lemma deleteWalking_past_the_end (turns k : nat) (l : list nat) :
  length l <= k -> deleteWalking turns k l = l.
Proof.
  revert k. induction turns as [|n IH]; intros k H; [reflexivity|].
  cbn [deleteWalking]. rewrite (lookup_ge_None_2 l k) by lia. apply IH. lia.
Qed.

Lemma list_ind2 {A} (P : list A -> Prop) :
  P [] -> (forall a, P [a]) -> (forall a b l, P l -> P (a :: b :: l)) ->
  forall l, P l.
Proof.
  intros H0 H1 H2. fix IH 1.
  intros [|a [|b l]]; [exact H0|apply H1|apply H2, IH].
Qed.

(** The walk deletes the elements at the even positions it started on. *)
Lemma deleteWalking_everyOther (rest pre : list nat) (turns : nat) :
  length rest <= turns ->
  deleteWalking turns (length pre) (pre ++ rest) = (pre ++ everyOther rest)%list.
Proof.
  revert pre turns. induction rest as [|x|x y rest IH] using list_ind2;
    intros pre turns Hturns.
  - cbn [everyOther]. rewrite app_nil_r. apply deleteWalking_past_the_end. lia.
  - destruct turns as [|n]; [simpl in Hturns; lia|]. cbn [deleteWalking everyOther].
    rewrite list_lookup_middle by reflexivity. rewrite delete_middle.
    apply deleteWalking_past_the_end. rewrite length_app. simpl. lia.
  - destruct turns as [|n]; [simpl in Hturns; lia|]. cbn [deleteWalking everyOther].
    rewrite list_lookup_middle by reflexivity. rewrite delete_middle.
    replace (S (length pre)) with (length (pre ++ [y])) by (rewrite length_app; simpl; lia).
    replace (pre ++ y :: rest)%list with ((pre ++ [y]) ++ rest)%list
      by (rewrite <- app_assoc; reflexivity).
    rewrite IH by (simpl in Hturns; lia).
    rewrite <- app_assoc. reflexivity.
Qed.

Lemma indexOf_lookup (l : list nat) (k r : nat) :
  NoDup l -> l !! k = Some r -> JS.indexOf r l = Some k.
Proof.
  intros Hnd. revert k. induction Hnd as [|x l Hx Hnd IH]; intros k Hk; [discriminate|].
  destruct k as [|k]; simpl in *.
  - injection Hk as ->. rewrite Nat.eqb_refl. reflexivity.
  - destruct (Nat.eqb_spec x r) as [->|_].
    + contradiction Hx. apply list_elem_of_lookup. exists k. exact Hk.
    + rewrite (IH k Hk). reflexivity.
Qed.

Lemma In_loading (s : t) (r : nat) :
  In r (loading s) -> exists f, readers s !! r = Some (FileReader.mk f LOADING).
Proof.
  unfold loading. intros [_ H]%List.filter_In. apply isLoadingIn_Some, H.
Qed.

(** Aborting the tracked reader found at position [k]. *)
Lemma abort_tracked (s : t) (k r : nat) :
  activeReaders s = loading s ->
  activeReaders s !! k = Some r ->
  activeReaders (abort r s) = delete k (activeReaders s)
  /\ activeReaders (abort r s) = loading (abort r s)
  /\ attachments (abort r s) = attachments s.
Proof.
  intros Ht Hk.
  assert (Hin : In r (loading s)).
  { rewrite <- Ht. apply list_elem_of_In, list_elem_of_lookup. exists k. exact Hk. }
  destruct (In_loading s r Hin) as [f Hf].
  split; [|split; [|apply abort_attachments]].
  - unfold abort. rewrite Hf. unfold onabort. rewrite activeReaders_cleanupReader.
    replace (activeReaders (finish r (FileReader.mk f LOADING) s)) with (activeReaders s)
      by (destruct s; reflexivity).
    rewrite (indexOf_lookup (activeReaders s) k r); [reflexivity| |exact Hk].
    rewrite Ht. apply NoDup_loading.
  - unfold abort. rewrite Hf. unfold onabort.
    apply (tracked_resolve r (FileReader.mk f LOADING) s); [exact Ht|reflexivity..].
Qed.

Lemma forEachAbort_tracked (turns k : nat) (s : t) :
  activeReaders s = loading s ->
  activeReaders (forEachAbort turns k s) = deleteWalking turns k (activeReaders s)
  /\ activeReaders (forEachAbort turns k s) = loading (forEachAbort turns k s).
Proof.
  revert k s. induction turns as [|n IH]; intros k s Ht; [split; [reflexivity|exact Ht]|].
  cbn [forEachAbort deleteWalking].
  destruct (activeReaders s !! k) as [r|] eqn:Hk.
  - destruct (abort_tracked s k r Ht Hk) as (Ha & Ht' & _).
    destruct (IH (S k) (abort r s) Ht') as (IH1 & IH2).
    rewrite IH1, Ha. split; [reflexivity|]. rewrite <- IH2, IH1, Ha. reflexivity.
  - apply IH, Ht.
Qed.

(** The readers still loading after [cancelUpload]. *)
Lemma loading_cancelUpload (s : t) :
  activeReaders s = loading s ->
  loading (cancelUpload s) = everyOther (loading s).
Proof.
  intros Ht. unfold cancelUpload.
  destruct (forEachAbort_tracked (length (activeReaders s)) 0 s Ht) as (Hw & Ht').
  transitivity (loading (forEachAbort (length (activeReaders s)) 0 s)).
  { apply loading_readers. destruct (forEachAbort _ _ _); reflexivity. }
  rewrite <- Ht', Hw, <- Ht.
  apply (deleteWalking_everyOther (activeReaders s) [] (length (activeReaders s))). lia.
Qed.

Lemma fireLoad_nothing_loading (s : t) (r : nat) :
  loading s = [] -> fireLoad r s = s.
Proof.
  intros Hl. unfold fireLoad.
  destruct (readers s !! r) as [[f []]|] eqn:Hr; try reflexivity.
  assert (Hin : In r (loading s)).
  { unfold loading. apply List.filter_In. split.
    - apply in_seq. apply lookup_lt_Some in Hr. lia.
    - unfold isLoadingIn. rewrite Hr. reflexivity. }
  rewrite Hl in Hin. contradiction.
Qed.

(** X22: what cancelling leaves running. In a state reached without
    cancelling, [cancelUpload] aborts the loading readers at the positions
    0, 2, 4, ... of the tracked list and leaves those at the positions
    1, 3, 5, ... loading, while it empties the tracked list and lowers the
    processing flag; the attachments are not touched. *)
Theorem cancelUpload_aborts_every_other_reader
    (s : t) (Hreach : reachableWithoutCancel s) :
  loading (cancelUpload s) = everyOther (loading s)
  /\ activeReaders (cancelUpload s) = []
  /\ isProcessing (cancelUpload s) = false
  /\ attachments (cancelUpload s) = attachments s.
Proof.
  pose proof (activeReaders_are_the_loading_readers s Hreach) as Ht.
  split; [apply loading_cancelUpload, Ht|]. repeat split.
  unfold cancelUpload.
  replace (attachments (setIsProcessing false (setActiveReaders []
             (forEachAbort (length (activeReaders s)) 0 s))))
    with (attachments (forEachAbort (length (activeReaders s)) 0 s))
    by (destruct (forEachAbort _ _ _); reflexivity).
  apply forEachAbort_attachments.
Qed.

(** The theorem at three loading readers. *)
Lemma cancelUpload_aborts_every_other_reader_witness :
  loading threeLoading = [0; 1; 2] /\ loading (cancelUpload threeLoading) = [1].
Proof.
  split; [reflexivity|].
  assert (Hr : reachableWithoutCancel threeLoading)
    by (apply uncancelled_step; [reflexivity|apply uncancelled_init]).
  destruct (cancelUpload_aborts_every_other_reader threeLoading Hr) as (H & _).
  rewrite H. reflexivity.
Defined.

(** X23: cancelling a single pending read works. In a state reached
    without cancelling in which at most one reader is loading,
    [cancelUpload] leaves no reader loading, and no completion that is
    delivered afterwards changes anything: no attachment is added. *)
Theorem cancelUpload_of_one_reader_is_complete
    (s : t) (reader : nat)
    (Hreach : reachableWithoutCancel s)
    (Hone : length (loading s) <= 1) :
  loading (cancelUpload s) = []
  /\ fireLoad reader (cancelUpload s) = cancelUpload s
  /\ attachments (fireLoad reader (cancelUpload s)) = attachments s.
Proof.
  pose proof (activeReaders_are_the_loading_readers s Hreach) as Ht.
  assert (Hl : loading (cancelUpload s) = []).
  { rewrite (loading_cancelUpload s Ht).
    destruct (loading s) as [|x [|y l]]; [reflexivity|reflexivity|simpl in Hone; lia]. }
  split; [exact Hl|]. rewrite (fireLoad_nothing_loading _ reader Hl).
  split; [reflexivity|].
  unfold cancelUpload.
  replace (attachments (setIsProcessing false (setActiveReaders []
             (forEachAbort (length (activeReaders s)) 0 s))))
    with (attachments (forEachAbort (length (activeReaders s)) 0 s))
    by (destruct (forEachAbort _ _ _); reflexivity).
  apply forEachAbort_attachments.
Qed.

(** The theorem at one loading reader. *)
Lemma cancelUpload_of_one_reader_is_complete_witness :
  loading (step (FilesChosen [imageA]) init) = [0]
  /\ attachments (fireLoad 0 (cancelUpload (step (FilesChosen [imageA]) init))) = [].
Proof.
  split; [reflexivity|].
  assert (Hr : reachableWithoutCancel (step (FilesChosen [imageA]) init))
    by (apply uncancelled_step; [reflexivity|apply uncancelled_init]).
  destruct (cancelUpload_of_one_reader_is_complete
              (step (FilesChosen [imageA]) init) 0 Hr ltac:(simpl; lia)) as (_ & _ & H).
  exact H.
Defined.

End Attachments.

(** ** Dictation and file sizes *)

Section View.

Import InputArea InputAreaView Dictation.

Local Ltac flat s := destruct s; simpl in *.

Lemma append_empty_r (a : string) : a ++ "" = a.
Proof.
  induction a as [|c a IH]; [reflexivity|].
  change (String c (a ++ "") = String c a). f_equal. exact IH.
Qed.

Lemma startsWith_append (p q : string) : JS.startsWith p (p ++ q) = true.
Proof.
  induction p as [|c p IH]; [reflexivity|].
  change (String c p ++ q) with (String c (p ++ q)).
  cbn [JS.startsWith]. rewrite Ascii.eqb_refl, IH. reflexivity.
Qed.

Lemma startsWith_self (p : string) : JS.startsWith p p = true.
Proof. rewrite <- (append_empty_r p) at 2. apply startsWith_append. Qed.

(** The loop of [onresult] concatenates the final transcripts. *)
Lemma fold_final_transcripts (rs : list Result) (acc : string) :
  fold_left (fun acc r => if isFinal r then acc ++ transcript r else acc) rs acc
  = acc ++ String.concat "" (map transcript (List.filter isFinal rs)).
Proof.
  revert acc. induction rs as [|r rs IH]; intros acc; simpl.
  - symmetry. apply append_empty_r.
  - rewrite IH. destruct (isFinal r); [|reflexivity]. simpl.
    destruct (map transcript (List.filter isFinal rs)) as [|t ts] eqn:E.
    + rewrite append_empty_r. reflexivity.
    + rewrite append_assoc. reflexivity.
Qed.

(** X7: a recognition result never overwrites what is in the input box.
    The text appended is the concatenation of the transcripts that are
    final, from [resultIndex] on; interim transcripts are ignored. The old
    input is a prefix of the new one, and the attachments, the readers and
    the processing flag are not touched. *)
Theorem dictation_appends_final_transcripts (e : ResultEvent) (s : t) :
  let heard :=
    String.concat "" (map transcript
                        (List.filter isFinal (drop (resultIndex e) (results e)))) in
  let s' := onresult e s in
  input s' = (if JS.truthy heard then input s ++ spacer (input s) ++ heard
              else input s)
  /\ JS.startsWith (input s) (input s') = true
  /\ attachments s' = attachments s
  /\ activeReaders s' = activeReaders s
  /\ readers s' = readers s
  /\ isProcessing s' = isProcessing s.
Proof.
  intros heard s'. subst s'. unfold onresult.
  assert (Hf : finalTranscript e = heard).
  { unfold finalTranscript. rewrite fold_final_transcripts. reflexivity. }
  rewrite Hf. destruct (JS.truthy heard).
  - flat s. repeat split. apply startsWith_append.
  - repeat split. apply startsWith_self.
Qed.



(** Sizes just below a megabyte are shown as 1024.0 KB. *)
Example formatFileSize_examples :
  formatFileSize (Some 1023%N) = "1023 B"
  /\ formatFileSize (Some 1024%N) = "1.0 KB"
  /\ formatFileSize (Some 1280%N) = "1.3 KB"
  /\ formatFileSize (Some 1048575%N) = "1024.0 KB"
  /\ formatFileSize (Some 1048576%N) = "1.0 MB".
Proof. vm_compute. tauto. Qed.

End View.

(** ** The service *)

Section ServiceFacts.

Import Service.

(** A decimal numeral is not the id of the welcome message. *)
Lemma toString_not_welcome (n : Z) : String.eqb (JS.toString n) "welcome" = false.
Proof.
  unfold JS.toString. destruct (Z.to_int n) as [[]|[]]; reflexivity.
Qed.

Lemma filter_snoc {A} (f : A -> bool) (l : list A) (x : A) :
  f x = true -> List.filter f (l ++ [x]) = (List.filter f l ++ [x])%list.
Proof. intros H. rewrite List.filter_app. simpl. rewrite H. reflexivity. Qed.

Lemma last_snoc_Some {A} (l : list A) (x : A) : last (l ++ [x]) = Some x.
Proof. apply last_snoc. Qed.

(** X9: what a reloaded history replays. After [handleSendMessage] has
    appended the user's message, priming a session from the messages ends
    the history with that message as one content: an inline part per
    attachment, in order, then the text. The request made for the same
    message carries the same inline parts, and the text part only if the
    text is not empty (the bare text if there is no attachment). *)
Theorem history_ends_with_the_sent_message
    (s : App.t) (now : Z) (text : string) (atts : list Attachment.t)
    (instruction : option string) (session : option Chat) :
  let s' := App.handleSendMessage now text atts s in
  let chat := initializeChat instruction (Some (App.messages s')) in
  (exists h, history chat = Some h
             /\ last h = Some (mkContent user (map inlinePart atts ++ [Text text])))
  /\ snd (sendMessageToGemini text atts session)
     = (if Nat.ltb 0 (length atts)
        then Parts (map inlinePart atts ++ (if JS.truthy text then [Text text] else []))
        else Plain text).
Proof.
  intros s' chat. split; [|reflexivity].
  subst chat s'. unfold App.handleSendMessage. rewrite autoSpeakEffect_messages.
  set (m := Message.mk (JS.toString now) user text (Some atts) now).
  assert (Hm : App.messages
                 (App.setIsLoading true
                    (App.setMessages
                       (App.messages
                          (if JS.truthy (App.searchQuery s)
                           then App.setIsSearchActive false (App.setSearchQuery "" s)
                           else s) ++ [m])
                       (if JS.truthy (App.searchQuery s)
                        then App.setIsSearchActive false (App.setSearchQuery "" s)
                        else s)))
               = (App.messages s ++ [m])%list).
  { destruct (JS.truthy (App.searchQuery s)); destruct s; reflexivity. }
  rewrite Hm. unfold initializeChat.
  rewrite filter_snoc by (unfold notWelcome; simpl; rewrite toString_not_welcome; reflexivity).
  rewrite map_app, length_app. simpl.
  destruct (Nat.ltb_spec 0 (length (map contentOf (List.filter notWelcome (App.messages s))) + 1));
    [|lia].
  eexists. split; [reflexivity|]. apply last_snoc.
Qed.

(** X10: the request of [sendMessageToGemini]. Without attachments it is
    the bare text, even an empty one. With attachments it is a list of
    parts: one inline part per attachment, in order, followed by the text
    part unless the text is empty -- an empty text part is never sent. An
    existing session is used as it is; only a missing one is created, with
    the default instruction and no history. *)
Theorem sendMessageToGemini_request_shape
    (text : string) (atts : list Attachment.t) (c : Chat) :
  match snd (sendMessageToGemini text atts (Some c)) with
  | Plain t => atts = [] /\ t = text
  | Parts ps =>
      atts <> []
      /\ take (length atts) ps = map inlinePart atts
      /\ drop (length atts) ps = (if JS.truthy text then [Text text] else [])
      /\ ~ In (Text "") ps
  end
  /\ snd (sendMessageToGemini text atts None) = snd (sendMessageToGemini text atts (Some c))
  /\ fst (sendMessageToGemini text atts (Some c)) = c
  /\ fst (sendMessageToGemini text atts None)
     = mkChat CHAT_MODEL defaultInstruction None.
Proof.
  split; [|repeat split].
  unfold sendMessageToGemini. cbn [snd].
  destruct atts as [|a atts]; [split; reflexivity|].
  change (Nat.ltb 0 (length (a :: atts))) with true. cbv iota.
  split; [discriminate|].
  rewrite <- (length_map inlinePart (a :: atts)) at 1 2.
  rewrite take_app_length, drop_app_length.
  split; [reflexivity|]. split; [reflexivity|].
  intros Hin. apply in_app_or in Hin as [Hin|Hin].
  - apply in_map_iff in Hin as (x & Hx & _). discriminate.
  - destruct text; simpl in Hin; [contradiction|].
    destruct Hin as [Hin|[]]. discriminate.
Qed.

(** A missing payload takes an invocation that awaits its speech into the
    [catch] block. *)
Lemma settle_speech_missing (s : App.t) (call : nat) (c : Call.t) :
  App.calls s !! call = Some c ->
  Call.stage c = AwaitSpeech ->
  App.settle call (Speech None) s
  = App.catch (Call.closure c) (App.setStage call c Returned s).
Proof. intros Hc Hs. unfold App.settle. rewrite Hc, Hs. reflexivity. Qed.

(** X11: [generateSpeech] reads the audio from the first part of the first
    candidate only. If that part carries no inline data the speech counts
    as missing, whatever the later parts and candidates hold, and
    [handleSpeak] fails: the speaking id and the loading flag are cleared,
    the invocation has returned and no source is started. *)
Theorem speech_is_read_from_the_first_part_only
    (s : App.t) (call : nat) (c : Call.t)
    (rest : list ResponsePart) (others : list Candidate)
    (Hcall : App.calls s !! call = Some c)
    (Hstage : Call.stage c = AwaitSpeech) :
  let response :=
    mkResponse (Some (mkCandidate (Some (mkResponseContent
      (Some (mkResponsePart None :: rest)))) :: others)) in
  let s' := App.settle call (fst (generateSpeech (Responded response))) s in
  base64Audio response = None
  /\ App.isSpeakingId s' = None
  /\ App.speakingLoading s' = false
  /\ App.sources s' = App.sources s
  /\ App.calls s' !! call
     = Some (Call.mk (Call.closure c) (Call.message c) Returned)
  /\ App.console s' = (App.console s ++ ["TTS Error:"])%list.
Proof.
  intros response s'. split; [reflexivity|].
  subst s'. change (fst (generateSpeech (Responded response))) with (Speech None).
  rewrite (settle_speech_missing s call c Hcall Hstage).
  destruct (catch_spec (Call.closure c) (App.setStage call c Returned s))
    as (Hi & Hl & Hco & _ & Hsrc & Hcalls).
  rewrite Hi, Hl, Hco, Hsrc, Hcalls. repeat split.
  simpl. apply list_lookup_insert_eq. apply lookup_lt_Some in Hcall. exact Hcall.
Qed.

(** The theorem at a response with audio in its second part. *)
Lemma speech_is_read_from_the_first_part_only_witness :
  App.calls requesting !! 0%nat
  = Some (Call.mk (App.render started) (App.welcome 0) AwaitSpeech)
  /\ base64Audio audioInSecondPart = None
  /\ App.isSpeakingId
       (App.settle 0 (fst (generateSpeech (Responded audioInSecondPart))) requesting)
     = None
  /\ App.sources
       (App.settle 0 (fst (generateSpeech (Responded audioInSecondPart))) requesting)
     = [].
Proof.
  split; [reflexivity|].
  pose proof (speech_is_read_from_the_first_part_only requesting 0
                (Call.mk (App.render started) (App.welcome 0) AwaitSpeech)
                [mkResponsePart (Some (mkBlob (Some "AAAA")))] []
                eq_refl eq_refl) as H.
  cbv zeta in H. destruct H as (Hb & Hi & _ & Hs & _).
  split; [exact Hb|]. split; [exact Hi|exact Hs].
Defined.

End ServiceFacts.

(** ** Searching *)

Section Searching.

Import Shell.

Local Ltac branches :=
  repeat match goal with
         | |- context [match ?x with _ => _ end] => destruct x eqn:?
         end.

(** Take a handler apart from its innermost tests outwards. *)
Local Ltac leaves :=
  repeat (simpl;
          match goal with
          | |- context [match ?x with _ => _ end] =>
              lazymatch x with
              | context [match _ with _ => _ end] => fail
              | _ => destruct x
              end
          end); simpl.

(** The search fields of a state. *)
Local Abbreviation searchOf a := (App.searchQuery a, App.isSearchActive a).

Lemma handleSpeak_search fresh cl m a :
  searchOf (App.handleSpeak fresh cl m a) = searchOf a.
Proof.
  unfold App.handleSpeak, App.stopAudio, App.catch, App.stopSource.
  destruct a. leaves; reflexivity.
Qed.

Lemma settle_search call o a : searchOf (App.settle call o a) = searchOf a.
Proof.
  unfold App.settle, App.playAudioBuffer, App.catch, App.setStage, App.stopSource.
  destruct a. leaves; reflexivity.
Qed.

Lemma autoSpeakEffect_search a : searchOf (App.autoSpeakEffect a) = searchOf a.
Proof. unfold App.autoSpeakEffect. destruct a. leaves; reflexivity. Qed.

Lemma initNewChat_query now a : App.searchQuery (App.initNewChat now a) = "".
Proof.
  unfold App.initNewChat.
  pose proof (autoSpeakEffect_search
    (App.setQuotedMessage None (App.setIsSearchActive false
       (App.setSearchQuery "" (App.setMessages [App.welcome now] a))))) as H.
  injection H as H _. rewrite H. reflexivity.
Qed.

(** A step of [App] leaves the search fields alone or empties the query. *)
Lemma step_search (e : App.Event) (a : App.t) :
  searchOf (App.step e a) = searchOf a \/ App.searchQuery (App.step e a) = "".
Proof.
  destruct e; simpl.
  - left. branches; try reflexivity. apply handleSpeak_search.
  - left. branches; try reflexivity. rewrite handleSpeak_search.
    destruct a; reflexivity.
  - left. apply settle_search.
  - left. unfold App.toggleAutoSpeak. rewrite autoSpeakEffect_search.
    destruct a; reflexivity.
  - left. destruct a; reflexivity.
  - left. destruct a; reflexivity.
  - right. apply initNewChat_query.
  - left. branches; destruct a; reflexivity.
  - left. destruct a; reflexivity.
  - unfold App.handleSendMessage.
    match goal with |- context [App.autoSpeakEffect ?x] =>
      pose proof (autoSpeakEffect_search x) as H end.
    injection H as Hq Ha. rewrite Hq, Ha.
    destruct (JS.truthy (App.searchQuery a)) eqn:E.
    + right. destruct a; reflexivity.
    + left. destruct a; reflexivity.
  - left. unfold App.chatSettled.
    match goal with |- context [App.autoSpeakEffect ?x] =>
      pose proof (autoSpeakEffect_search x) as H end.
    injection H as Hq Ha. rewrite Hq, Ha.
    destruct o; destruct a; reflexivity.
Qed.

Lemma queryNeedsSearch_empty (a : App.t) :
  App.searchQuery a = "" -> queryNeedsSearch a.
Proof. unfold queryNeedsSearch. intros -> H. contradiction. Qed.

Lemma queryNeedsSearch_setQuotedMessage v a :
  queryNeedsSearch a -> queryNeedsSearch (App.setQuotedMessage v a).
Proof. destruct a. exact (fun H => H). Qed.

Lemma queryNeedsSearch_handleClearSearch a : queryNeedsSearch (handleClearSearch a).
Proof. apply queryNeedsSearch_empty. destruct a; reflexivity. Qed.

Lemma step_queryNeedsSearch (e : Event) (sh : t) :
  queryNeedsSearch (app sh) -> queryNeedsSearch (app (step e sh)).
Proof.
  intros H. destruct e as [|query| | |now e|inner]; simpl.
  - unfold queryNeedsSearch. intros _. destruct sh as [a ?]; destruct a; reflexivity.
  - destruct (App.isSearchActive (app sh)) eqn:E; [|exact H].
    unfold queryNeedsSearch. intros _. destruct sh as [a ?]; destruct a; simpl in *.
    exact E.
  - apply queryNeedsSearch_empty. destruct sh as [a ?]; destruct a; reflexivity.
  - exact H.
  - unfold handleKeyDown.
    destruct (altKey e && String.eqb (JSLib.toLowerCase (key e)) "n");
      destruct (altKey e && String.eqb (JSLib.toLowerCase (key e)) "s");
      destruct (String.eqb (key e) "Escape"); simpl;
      destruct (App.isSearchActive (app sh)); destruct (App.quotedMessage (app sh));
      simpl;
      repeat first [ exact H
                   | apply queryNeedsSearch_setQuotedMessage
                   | apply queryNeedsSearch_handleClearSearch
                   | apply queryNeedsSearch_empty, initNewChat_query ].
  - destruct (step_search inner (app sh)) as [Hs|Hs].
    + unfold queryNeedsSearch. injection Hs as -> ->. exact H.
    + apply queryNeedsSearch_empty. exact Hs.
Qed.

Lemma mount_search now saved savedSpeed savedVoice :
  App.searchQuery (App.mount now saved savedSpeed savedVoice) = "".
Proof.
  unfold App.mount, App.loadSettings, App.initNewChat.
  repeat match goal with
         | |- context [match ?x with _ => _ end] => destruct x
         end; reflexivity.
Qed.

(** A query is only present while search is active, in every reachable
    state. *)
Lemma reachable_queryNeedsSearch (sh : t) : reachable sh -> queryNeedsSearch (app sh).
Proof.
  induction 1 as [|e sh _ IH].
  - apply queryNeedsSearch_empty, mount_search.
  - apply step_queryNeedsSearch, IH.
Qed.

Lemma lowerChar_idempotent (c : ascii) :
  JSLib.lowerChar (JSLib.lowerChar c) = JSLib.lowerChar c.
Proof. destruct c as [[] [] [] [] [] [] [] []]; vm_compute; reflexivity. Qed.

Lemma toLowerCase_idempotent (x : string) :
  JSLib.toLowerCase (JSLib.toLowerCase x) = JSLib.toLowerCase x.
Proof.
  induction x as [|c x IH]; [reflexivity|].
  cbn [JSLib.toLowerCase]. rewrite lowerChar_idempotent, IH. reflexivity.
Qed.

Lemma truthy_toLowerCase (x : string) : JS.truthy (JSLib.toLowerCase x) = JS.truthy x.
Proof. destruct x; reflexivity. Qed.

Lemma filteredMessages_query (q : string) (a : App.t) :
  filteredMessages (App.setSearchQuery q a)
  = if JS.truthy q then
      List.filter (fun msg => JS.includes (JSLib.toLowerCase q)
                                          (JSLib.toLowerCase (Message.text msg)))
                  (App.messages a)
    else App.messages a.
Proof. destruct a; reflexivity. Qed.

(** X12: the search ignores the letter case of the query. A query and its
    lower-case form select the same messages; the empty query selects all
    of them; and a message that is shown is one of the messages and, for a
    query that is not empty, holds the lower-cased query in its lower-cased
    text. *)
Theorem search_ignores_the_case_of_the_query (q : string) (a : App.t) :
  filteredMessages (App.setSearchQuery (JSLib.toLowerCase q) a)
  = filteredMessages (App.setSearchQuery q a)
  /\ filteredMessages (App.setSearchQuery "" a) = App.messages a
  /\ forall msg, In msg (filteredMessages (App.setSearchQuery q a)) ->
       In msg (App.messages a)
       /\ (q = ""
           \/ JS.includes (JSLib.toLowerCase q) (JSLib.toLowerCase (Message.text msg))
              = true).
Proof.
  rewrite !filteredMessages_query, truthy_toLowerCase, toLowerCase_idempotent.
  split; [reflexivity|]. split; [reflexivity|].
  intros msg. destruct q as [|c q]; simpl JS.truthy; cbv iota.
  - intros H. split; [exact H|left; reflexivity].
  - intros H%List.filter_In. destruct H as [H1 H2]. split; [exact H1|right; exact H2].
Qed.

Lemma autoSpeakEffect_searchQuery a :
  App.searchQuery (App.autoSpeakEffect a) = App.searchQuery a.
Proof. pose proof (autoSpeakEffect_search a) as H. injection H as H _. exact H. Qed.

Lemma filteredMessages_no_query (a : App.t) :
  App.searchQuery a = "" -> filteredMessages a = App.messages a.
Proof. unfold filteredMessages. intros ->. reflexivity. Qed.

(** X13: sending ends the filtering. After [handleSendMessage] the query
    is empty, so every message is shown again, the last of them being the
    message just sent. *)
Theorem sending_clears_the_search
    (a : App.t) (now : Z) (text : string) (atts : list Attachment.t) :
  let a' := App.handleSendMessage now text atts a in
  let sent := Message.mk (JS.toString now) user text (Some atts) now in
  App.searchQuery a' = ""
  /\ App.messages a' = (App.messages a ++ [sent])%list
  /\ filteredMessages a' = (App.messages a ++ [sent])%list
  /\ last (filteredMessages a') = Some sent.
Proof.
  intros a' sent.
  assert (Hq : App.searchQuery a' = "").
  { subst a'. unfold App.handleSendMessage. rewrite autoSpeakEffect_searchQuery.
    destruct (JS.truthy (App.searchQuery a)) eqn:E.
    - destruct a; reflexivity.
    - apply truthy_false in E. destruct a; simpl in *. exact E. }
  assert (Hm : App.messages a' = (App.messages a ++ [sent])%list).
  { subst a'. unfold App.handleSendMessage. rewrite autoSpeakEffect_messages.
    destruct (JS.truthy (App.searchQuery a)); destruct a; reflexivity. }
  rewrite (filteredMessages_no_query a' Hq), Hm.
  repeat split; try assumption. apply last_snoc.
Qed.

(** X14: Escape ends the search. In every reachable state, pressing
    Escape leaves the query empty and the search inactive, so that every
    message is shown; it also closes the settings and drops the quoted
    message, and changes no message. *)
Theorem escape_ends_the_search
    (sh : t) (now : Z) (alt : bool) (Hreach : reachable sh) :
  let sh' := handleKeyDown now (mkKey alt "Escape") sh in
  App.searchQuery (app sh') = ""
  /\ App.isSearchActive (app sh') = false
  /\ showSettings sh' = false
  /\ App.quotedMessage (app sh') = None
  /\ App.messages (app sh') = App.messages (app sh)
  /\ filteredMessages (app sh') = App.messages (app sh).
Proof.
  intros sh'.
  pose proof (reachable_queryNeedsSearch sh Hreach) as Hinv.
  assert (H : App.searchQuery (app sh') = ""
              /\ App.isSearchActive (app sh') = false
              /\ showSettings sh' = false
              /\ App.quotedMessage (app sh') = None
              /\ App.messages (app sh') = App.messages (app sh)).
  { subst sh'. unfold handleKeyDown. cbn [altKey key].
    change (String.eqb (JSLib.toLowerCase "Escape") "n") with false.
    change (String.eqb (JSLib.toLowerCase "Escape") "s") with false.
    rewrite andb_false_r. change (String.eqb "Escape" "Escape") with true. cbv iota.
    unfold queryNeedsSearch in Hinv. destruct sh as [a shown]. cbn [app showSettings] in *.
    destruct (App.isSearchActive a) eqn:Ea.
    - destruct a; simpl in *. destruct quotedMessage, shown; repeat split.
    - assert (Hq : App.searchQuery a = "").
      { destruct (string_dec (App.searchQuery a) "") as [E|E]; [exact E|].
        specialize (Hinv E). discriminate. }
      destruct a; simpl in *. subst. destruct quotedMessage, shown; repeat split. }
  destruct H as (Hq & Ha & Hs & Hquote & Hm).
  rewrite (filteredMessages_no_query _ Hq). repeat split; assumption.
Qed.

(** The theorem at a state with a query, the settings open and a quote. *)
Lemma escape_ends_the_search_witness :
  App.searchQuery (app searching) = "Gemini"
  /\ showSettings searching = true
  /\ App.searchQuery (app (handleKeyDown 0 (mkKey false "Escape") searching)) = ""
  /\ showSettings (handleKeyDown 0 (mkKey false "Escape") searching) = false
  /\ App.quotedMessage (app (handleKeyDown 0 (mkKey false "Escape") searching)) = None.
Proof.
  split; [reflexivity|]. split; [reflexivity|].
  assert (Hr : reachable searching).
  { unfold searching. do 4 apply reachable_step. apply reachable_mount. }
  destruct (escape_ends_the_search searching 0 false Hr) as (Hq & _ & Hs & Hquote & _).
  split; [exact Hq|]. split; [exact Hs|exact Hquote].
Defined.

End Searching.

(** ** Speech bookkeeping *)

Section SpeechFacts.

Import App Speech.

Local Ltac leaves :=
  repeat (simpl;
          match goal with
          | |- context [match ?x with _ => _ end] =>
              lazymatch x with
              | context [match _ with _ => _ end] => fail
              | _ => destruct x
              end
          end); simpl.

Lemma handleSpeak_bookkeeping fresh cl m a :
  timers (handleSpeak fresh cl m a) = timers a
  /\ (calls (handleSpeak fresh cl m a) = calls a
      \/ exists st, calls (handleSpeak fresh cl m a) = (calls a ++ [Call.mk cl m st])%list).
Proof.
  unfold handleSpeak, stopAudio, catch, stopSource.
  destruct a. leaves; (split; [reflexivity|]); eauto.
Qed.

Lemma settle_bookkeeping call o a :
  timers (settle call o a) = timers a
  /\ (calls (settle call o a) = calls a
      \/ exists c st, calls a !! call = Some c
                      /\ calls (settle call o a)
                         = <[call := Call.mk (Call.closure c) (Call.message c) st]> (calls a)).
Proof.
  unfold settle.
  destruct (calls a !! call) as [c|] eqn:Hc; [|split; [reflexivity|left; reflexivity]].
  unfold playAudioBuffer, catch, setStage, stopSource.
  destruct a. cbn [calls] in Hc.
  leaves; (split; [reflexivity|]); eauto.
Qed.

Lemma autoSpeakEffect_bookkeeping a :
  calls (autoSpeakEffect a) = calls a
  /\ (timers (autoSpeakEffect a) = timers a
      \/ exists cl m, isModel m = true
                      /\ timers (autoSpeakEffect a) = (timers a ++ [(cl, m)])%list).
Proof.
  unfold autoSpeakEffect.
  destruct (negb (autoSpeak a) || Nat.eqb (length (messages a)) 0);
    [split; [reflexivity|left; reflexivity]|].
  destruct (last (messages a)) as [m|]; [|split; [reflexivity|left; reflexivity]].
  destruct (isModel m) eqn:Hm; simpl; [|split; [reflexivity|left; reflexivity]].
  destruct (negb _); [|split; [reflexivity|left; reflexivity]].
  split; [destruct a; reflexivity|]. right. exists (render a), m.
  split; [exact Hm|]. destruct a; reflexivity.
Qed.

Lemma onlyModelMessages_effect a :
  onlyModelMessages a -> onlyModelMessages (autoSpeakEffect a).
Proof.
  intros [Hc Ht]. destruct (autoSpeakEffect_bookkeeping a) as (Ec & [Et|(cl & m & Hm & Et)]);
    split; rewrite ?Ec, ?Et; try assumption.
  apply Forall_app. split; [exact Ht|]. repeat constructor. exact Hm.
Qed.

Lemma onlyModelMessages_handleSpeak fresh cl m a :
  isModel m = true -> onlyModelMessages a ->
  onlyModelMessages (handleSpeak fresh cl m a).
Proof.
  intros Hm [Hc Ht].
  destruct (handleSpeak_bookkeeping fresh cl m a) as (Et & [Ec|(st & Ec)]);
    split; rewrite ?Ec, ?Et; try assumption.
  apply Forall_app. split; [exact Hc|]. repeat constructor. exact Hm.
Qed.

Lemma onlyModelMessages_fields (a b : t) :
  calls b = calls a -> timers b = timers a ->
  onlyModelMessages a -> onlyModelMessages b.
Proof. unfold onlyModelMessages. intros -> ->. exact (fun H => H). Qed.

Lemma step_onlyModelMessages (e : Event) (a : t) :
  onlyModelMessages a -> onlyModelMessages (step e a).
Proof.
  intros H. destruct e as [index fresh|timer fresh|call o| |v|v|now|index| |now text atts|now o];
    simpl.
  - destruct (messages a !! index) as [m|]; [|exact H].
    unfold speakEnabled. destruct (isModel m) eqn:Hm; simpl; [|exact H].
    destruct (negb _); [|exact H]. apply onlyModelMessages_handleSpeak; assumption.
  - destruct (timers a !! timer) as [[cl m]|] eqn:Ht; [|exact H].
    destruct H as [Hc Htm].
    assert (Hm : isModel m = true).
    { rewrite Forall_lookup in Htm. exact (Htm timer (cl, m) Ht). }
    apply onlyModelMessages_handleSpeak; [exact Hm|].
    split; [destruct a; exact Hc|].
    destruct a; simpl in *. apply Forall_delete. exact Htm.
  - destruct H as [Hc Ht].
    destruct (settle_bookkeeping call o a) as (Et & [Ec|(c & st & Hl & Ec)]);
      split; rewrite ?Ec, ?Et; try assumption.
    apply Forall_insert; [exact Hc|]. simpl.
    rewrite Forall_lookup in Hc. exact (Hc call c Hl).
  - apply onlyModelMessages_effect. revert H. apply onlyModelMessages_fields;
      destruct a; reflexivity.
  - revert H. apply onlyModelMessages_fields; destruct a; reflexivity.
  - revert H. apply onlyModelMessages_fields; destruct a; reflexivity.
  - apply onlyModelMessages_effect. revert H. apply onlyModelMessages_fields;
      destruct a; reflexivity.
  - destruct (messages a !! index); [|exact H].
    revert H. apply onlyModelMessages_fields; destruct a; reflexivity.
  - revert H. apply onlyModelMessages_fields; destruct a; reflexivity.
  - apply onlyModelMessages_effect. revert H. apply onlyModelMessages_fields;
      destruct (JS.truthy (searchQuery a)); destruct a; reflexivity.
  - apply onlyModelMessages_effect. revert H. apply onlyModelMessages_fields;
      destruct o; destruct a; reflexivity.
Qed.

Lemma mount_bookkeeping now saved savedSpeed savedVoice :
  calls (mount now saved savedSpeed savedVoice) = []
  /\ timers (mount now saved savedSpeed savedVoice) = [].
Proof.
  unfold mount, loadSettings, initNewChat.
  repeat match goal with
         | |- context [match ?x with _ => _ end] => destruct x
         end; split; reflexivity.
Qed.

(** X15: only messages of the model are ever read aloud. In every
    reachable state each invocation of [handleSpeak], in flight or
    returned, and each pending auto-speak timer is for a message whose
    role is [model]. *)
Theorem only_model_messages_are_spoken (a : t) (Hreach : reachable a) :
  Forall (fun c => Message.role (Call.message c) = model) (calls a)
  /\ Forall (fun t : Closure * Message.t => Message.role (snd t) = model) (timers a).
Proof.
  assert (H : onlyModelMessages a).
  { induction Hreach as [now saved savedSpeed savedVoice|e a _ IH].
    - destruct (mount_bookkeeping now saved savedSpeed savedVoice) as [Hc Ht].
      split; rewrite ?Hc, ?Ht; constructor.
    - apply step_onlyModelMessages, IH. }
  destruct H as [Hc Ht]. split.
  - eapply Forall_impl; [exact Hc|]. intros c. unfold isModel.
    destruct (Message.role (Call.message c)); [discriminate|reflexivity].
  - eapply Forall_impl; [exact Ht|]. intros c. unfold isModel.
    destruct (Message.role (snd c)); [discriminate|reflexivity].
Qed.

(** The theorem after two messages were read aloud. *)
Lemma only_model_messages_are_spoken_witness :
  length (calls (run overlapTrace answered)) = 2
  /\ Forall (fun c => Message.role (Call.message c) = model)
            (calls (run overlapTrace answered)).
Proof.
  split; [reflexivity|].
  apply (only_model_messages_are_spoken (run overlapTrace answered)).
  apply reachable_run, reachable_run, reachable_mount.
Defined.

(** X16: with auto-speak on, whatever a chat request ends in is read
    aloud: [chatSettled] appends one message of the model -- the reply, the
    stand-in for an empty reply, or the error text -- lowers the loading
    flag, and schedules exactly one [handleSpeak] for that message, unless
    its id is the one spoken last. With auto-speak off it schedules
    nothing. *)
Theorem chat_outcome_is_scheduled_for_speech (a : t) (now : Z) (o : ChatOutcome) :
  let a' := chatSettled now o a in
  let m := botMessage now o in
  messages a' = (messages a ++ [m])%list
  /\ Message.role m = model
  /\ isLoading a' = false
  /\ calls a' = calls a
  /\ timers a'
     = (if autoSpeak a && negb (sameId (lastSpokenMessageId a) (Message.id m))
        then timers a ++ [(render a, m)] else timers a)%list.
Proof.
  intros a' m. subst a'. unfold chatSettled. fold (botMessage now o). fold m.
  assert (Hrole : Message.role m = model) by (subst m; destruct o; reflexivity).
  set (a1 := setIsLoading false _).
  assert (H1 : messages a1 = (messages a ++ [m])%list
               /\ isLoading a1 = false /\ calls a1 = calls a /\ timers a1 = timers a
               /\ autoSpeak a1 = autoSpeak a
               /\ lastSpokenMessageId a1 = lastSpokenMessageId a
               /\ render a1 = render a).
  { subst a1. destruct o; destruct a; repeat split. }
  destruct H1 as (Hm & Hl & Hc & Ht & Ha & Hs & Hr). clearbody a1.
  unfold autoSpeakEffect. rewrite Ha, Hm, length_app, last_snoc, Hs, Hr.
  unfold isModel. rewrite Hrole.
  replace (Nat.eqb (length (messages a) + length [m]) 0) with false
    by (symmetry; apply Nat.eqb_neq; simpl; lia).
  rewrite orb_false_r.
  destruct (autoSpeak a); simpl.
  - destruct (negb (sameId (lastSpokenMessageId a) (Message.id m))); simpl.
    + simpl. rewrite Ht. repeat split; assumption.
    + repeat split; assumption.
  - repeat split; assumption.
Qed.

(** X17: the audio context is constructed once. Once [audioContextRef]
    holds a context no event empties the ref or replaces the context: it
    keeps its state, or has been resumed and is running. *)
Theorem audio_context_is_kept
    (e : Event) (a : t) (st : ContextState)
    (Hctx : audioContextRef a = Some st) :
  audioContextRef (step e a) = Some st \/ audioContextRef (step e a) = Some running.
Proof.
  destruct e as [index fresh|timer fresh|call o| |v|v|now|index| |now text atts|now o];
    simpl.
  - unfold handleSpeak, stopAudio, catch, stopSource, speakEnabled.
    destruct a; simpl in *; subst. leaves; auto.
  - unfold handleSpeak, stopAudio, catch, stopSource.
    destruct a; simpl in *; subst. leaves; auto.
  - unfold settle, playAudioBuffer, catch, setStage, stopSource.
    destruct a; simpl in *; subst. leaves; auto.
  - unfold toggleAutoSpeak, autoSpeakEffect. destruct a; simpl in *; subst. leaves; auto.
  - destruct a; simpl in *; subst; auto.
  - destruct a; simpl in *; subst; auto.
  - unfold initNewChat, autoSpeakEffect. destruct a; simpl in *; subst. leaves; auto.
  - destruct a; simpl in *; subst. leaves; auto.
  - destruct a; simpl in *; subst; auto.
  - unfold handleSendMessage, autoSpeakEffect. destruct a; simpl in *; subst.
    leaves; auto.
  - unfold chatSettled, autoSpeakEffect. destruct a; simpl in *; subst.
    leaves; auto.
Qed.

(** The theorem at a suspended context that is resumed. *)
Lemma audio_context_is_kept_witness :
  audioContextRef (step (Click 0 (Some suspended)) started) = Some suspended
  /\ audioContextRef (step (Settle 0 Resumed) (step (Click 0 (Some suspended)) started))
     = Some running.
Proof.
  split; [reflexivity|].
  destruct (audio_context_is_kept (Settle 0 Resumed)
              (step (Click 0 (Some suspended)) started) suspended eq_refl) as [H|H].
  - discriminate H.
  - exact H.
Defined.

(** *** The speed of a playback *)





End SpeechFacts.

(** ** One chat request at a time *)

Section ConversationFacts.

Import Conversation.

Local Ltac leaves :=
  repeat (simpl;
          match goal with
          | |- context [match ?x with _ => _ end] =>
              lazymatch x with
              | context [match _ with _ => _ end] => fail
              | _ => destruct x
              end
          end); simpl.

(** The requests pending are one while the loading flag is up, none
    otherwise. *)
Local Abbreviation balanced c :=
  (pendingChats c = if App.isLoading (UI.app (ui c)) then 1 else 0).

Lemma step_isLoading (e : App.Event) (a : App.t) :
  match e with
  | App.SendMessage _ _ _ | App.ChatSettled _ _ => True
  | _ => App.isLoading (App.step e a) = App.isLoading a
  end.
Proof.
  destruct e; try exact I; simpl;
    unfold App.handleSpeak, App.settle, App.toggleAutoSpeak, App.initNewChat,
      App.autoSpeakEffect, App.playAudioBuffer, App.stopAudio, App.catch,
      App.setStage, App.stopSource, App.speakEnabled;
    destruct a; leaves; reflexivity.
Qed.

Lemma handleSendMessage_isLoading now text atts a :
  App.isLoading (App.handleSendMessage now text atts a) = true.
Proof.
  unfold App.handleSendMessage, App.autoSpeakEffect. destruct a. leaves; reflexivity.
Qed.

Lemma chatSettled_isLoading now o a : App.isLoading (App.chatSettled now o a) = false.
Proof.
  unfold App.chatSettled, App.autoSpeakEffect. destruct a. leaves; reflexivity.
Qed.

Lemma send_balanced (now : Z) (c : t) : balanced c -> balanced (send now c).
Proof.
  intros H. unfold send, UI.handleSend, InputArea.handleSend.
  destruct (InputArea.sendBlocked _ _) eqn:Hb; cbn [ui pendingChats UI.app].
  - exact H.
  - unfold InputArea.sendBlocked in Hb.
    apply orb_false_iff in Hb as [Hb _]. apply orb_false_iff in Hb as [_ Hl].
    cbn [UI.props InputArea.isLoading] in Hl. rewrite Hl in H. rewrite H.
    rewrite handleSendMessage_isLoading. reflexivity.
Qed.

Lemma step_balanced (e : Event) (c : t) : balanced c -> balanced (step e c).
Proof.
  intros H. destruct e as [now|key shiftKey now|now o|e|e]; cbn [step].
  - apply send_balanced, H.
  - unfold handleKeyDown. destruct (_ && _); [apply send_balanced|]; exact H.
  - destruct (pendingChats c) as [|n] eqn:Hp; [rewrite Hp; exact H|].
    cbn [pendingChats ui UI.app]. rewrite chatSettled_isLoading.
    destruct (App.isLoading (UI.app (ui c))); [injection H as ->; reflexivity|discriminate].
  - destruct e; exact H.
  - pose proof (step_isLoading e (UI.app (ui c))) as P.
    destruct e; try exact H; cbn [pendingChats ui UI.app]; rewrite P; exact H.
Qed.

Lemma mount_isLoading now saved savedSpeed savedVoice :
  App.isLoading (App.mount now saved savedSpeed savedVoice) = false.
Proof.
  unfold App.mount, App.loadSettings, App.initNewChat.
  repeat match goal with
         | |- context [match ?x with _ => _ end] => destruct x
         end; reflexivity.
Qed.

Lemma reachable_balanced (c : t) : reachable c -> balanced c.
Proof.
  induction 1 as [now saved savedSpeed savedVoice|e c _ IH].
  - cbn [pendingChats ui UI.app]. rewrite mount_isLoading. reflexivity.
  - apply step_balanced, IH.
Qed.

(** X19: at most one chat request is outstanding. In every state the
    composed components reach, the number of requests not yet settled is
    one while [isLoading] is up and none otherwise; and while one is
    outstanding neither the send button nor the Enter key sends anything. *)
Theorem one_chat_request_at_a_time (c : t) (now : Z) (Hreach : reachable c) :
  pendingChats c <= 1
  /\ (pendingChats c = 1 <-> App.isLoading (UI.app (ui c)) = true)
  /\ (if App.isLoading (UI.app (ui c))
      then step (SendPressed now) c = c /\ step (KeyDown "Enter" false now) c = c
      else True).
Proof.
  pose proof (reachable_balanced c Hreach) as H.
  destruct (App.isLoading (UI.app (ui c))) eqn:Hl; rewrite H.
  - split; [lia|]. split; [tauto|].
    assert (Hs : send now c = c).
    { unfold send, UI.handleSend, InputArea.handleSend.
      assert (Hb : InputArea.sendBlocked (UI.props (UI.app (ui c))) (UI.inputArea (ui c))
                   = true).
      { unfold InputArea.sendBlocked. cbn [UI.props InputArea.isLoading].
        rewrite Hl, orb_true_r. reflexivity. }
      rewrite Hb. destruct c as [[a ia] n]. reflexivity. }
    split; [exact Hs|]. unfold step, handleKeyDown. simpl. exact Hs.
  - split; [lia|]. split; [|exact I]. split; discriminate.
Qed.

(** The theorem while a reply is awaited. *)
Lemma one_chat_request_at_a_time_witness :
  pendingChats waiting = 1
  /\ App.isLoading (UI.app (ui waiting)) = true
  /\ step (SendPressed 6) (step (Area (InputArea.Typed "again")) waiting)
     = step (Area (InputArea.Typed "again")) waiting.
Proof.
  split; [reflexivity|]. split; [reflexivity|].
  assert (Hr : reachable (step (Area (InputArea.Typed "again")) waiting)).
  { unfold waiting. do 3 apply reachable_step. apply reachable_mount. }
  destruct (one_chat_request_at_a_time _ 6 Hr) as (_ & _ & H).
  exact (proj1 H).
Defined.

End ConversationFacts.

(** ** The code block renderer *)

Section CodeBlockFacts.

Import CodeBlock.

Lemma dropPrefix_Some (p s rest : string) :
  dropPrefix p s = Some rest -> s = p ++ rest.
Proof.
  revert s. induction p as [|a p IH]; intros s H.
  - simpl in H. injection H as ->. reflexivity.
  - destruct s as [|b s]; [discriminate|]. simpl in H.
    destruct (Ascii.eqb_spec a b) as [->|]; [|discriminate].
    change (String b p ++ rest) with (String b (p ++ rest)).
    f_equal. apply IH, H.
Qed.

Lemma dropPrefix_append (p rest : string) : dropPrefix p (p ++ rest) = Some rest.
Proof.
  induction p as [|a p IH]; [reflexivity|].
  change (String a p ++ rest) with (String a (p ++ rest)).
  cbn [dropPrefix]. rewrite Ascii.eqb_refl. exact IH.
Qed.

Lemma takeWord_splits (s : string) :
  exists rest, s = takeWord s ++ rest /\ wordThen (takeWord s) rest.
Proof.
  induction s as [|c s (rest & Hs & Hw & Hr)].
  - exists "". repeat split. constructor.
  - cbn [takeWord]. destruct (isWordChar c) eqn:Hc.
    + exists rest. change (String c (takeWord s) ++ rest)
        with (String c (takeWord s ++ rest)).
      rewrite <- Hs. repeat split; [|exact Hr].
      cbn [list_ascii_of_string]. constructor; assumption.
    + exists (String c s). repeat split; [constructor|exact Hc].
Qed.

Lemma takeWord_word (w rest : string) : wordThen w rest -> takeWord (w ++ rest) = w.
Proof.
  intros [Hw Hr]. induction w as [|c w IH].
  - change ("" ++ rest) with rest.
    destruct rest as [|c rest]; [reflexivity|]. cbn [takeWord]. rewrite Hr.
    reflexivity.
  - change (String c w ++ rest) with (String c (w ++ rest)). cbn [takeWord].
    cbn [list_ascii_of_string] in Hw. apply Forall_cons in Hw as [Hc Hw].
    rewrite Hc, (IH Hw). reflexivity.
Qed.

Lemma matchHere_Some (s w : string) :
  matchHere s = Some w ->
  w <> "" /\ exists rest, s = "language-" ++ w ++ rest /\ wordThen w rest.
Proof.
  unfold matchHere. destruct (dropPrefix "language-" s) as [r|] eqn:Hd; [|discriminate].
  apply dropPrefix_Some in Hd. destruct (takeWord_splits r) as (rest & Hr & Hw).
  destruct (takeWord r) as [|c t] eqn:Ht; [discriminate|].
  intros H. injection H as <-. split; [discriminate|].
  exists rest. split; [|exact Hw]. rewrite Hd. f_equal. exact Hr.
Qed.

(** What a match of the expression gives. *)
Lemma matchLanguage_Some (className w : string) :
  matchLanguage className = Some w ->
  w <> ""
  /\ exists before rest,
       className = before ++ "language-" ++ w ++ rest /\ wordThen w rest.
Proof.
  induction className as [|c s IH]; cbn [matchLanguage].
  - destruct (matchHere "") eqn:E; [|discriminate]. discriminate E.
  - destruct (matchHere (String c s)) as [w'|] eqn:E.
    + intros H. injection H as <-. apply matchHere_Some in E as (Hne & rest & Hs & Hw).
      split; [exact Hne|]. exists "", rest. split; assumption.
    + intros H. destruct (IH H) as (Hne & before & rest & Hs & Hw).
      split; [exact Hne|]. exists (String c before), rest. split; [|exact Hw].
      change (String c before ++ "language-" ++ w ++ rest)
        with (String c (before ++ "language-" ++ w ++ rest)).
      f_equal. exact Hs.
Qed.

(** X20: the highlighted block is only rendered for code that is not
    inline and whose class name holds [language-] followed by a word
    character. The language in the header is then a non-empty run of word
    characters standing right after an occurrence of [language-] in the
    class name and not continued by a further word character; and the code
    shown is the text with at most one final line feed dropped. *)
Theorem block_needs_a_language
    (inline : bool) (className : option string) (children language code : string)
    (Hblock : render inline className children = Block language code) :
  inline = false
  /\ language <> ""
  /\ (exists before rest,
        className = Some (before ++ "language-" ++ language ++ rest)
        /\ Forall (fun c => isWordChar c = true) (list_ascii_of_string language)
        /\ match rest with
           | EmptyString => True
           | String c _ => isWordChar c = false
           end)
  /\ code = stripFinalNewline children.
Proof.
  unfold render in Hblock.
  destruct (matchLanguage (default "" className)) as [w|] eqn:Hm; [|discriminate].
  destruct inline; [discriminate|]. injection Hblock as <- <-.
  apply matchLanguage_Some in Hm as (Hne & before & rest & Hs & Hw & Hr).
  split; [reflexivity|]. split; [exact Hne|]. split; [|reflexivity].
  exists before, rest. destruct className as [cn|]; simpl in Hs.
  - rewrite Hs. repeat split; assumption.
  - destruct before; discriminate Hs.
Qed.

(** The theorem at the class name Markdown gives a fenced block. *)
Lemma block_needs_a_language_witness :
  render false (Some "language-js") ("let x;" ++ InputArea.newline) = Block "js" "let x;"
  /\ exists before rest, Some "language-js" = Some (before ++ "language-" ++ "js" ++ rest).
Proof.
  split; [reflexivity|].
  destruct (block_needs_a_language false (Some "language-js")
              ("let x;" ++ InputArea.newline) "js" "let x;" eq_refl)
    as (_ & _ & (before & rest & H & _) & _).
  exists before, rest. exact H.
Defined.

(** X21: the class name [language-] followed by a word, then nothing or
    something that is not a word character, gives a block for exactly that
    word when the code is not inline, and never a block when it is
    inline. *)
Theorem language_class_gives_its_block
    (w rest children : string)
    (Hword : w <> "")
    (Hw : Forall (fun c => isWordChar c = true) (list_ascii_of_string w))
    (Hrest : match rest with
             | EmptyString => True
             | String c _ => isWordChar c = false
             end) :
  render false (Some ("language-" ++ w ++ rest)) children
  = Block w (stripFinalNewline children)
  /\ render true (Some ("language-" ++ w ++ rest)) children
     = Inline (Some ("language-" ++ w ++ rest)).
Proof.
  assert (Hm : matchLanguage ("language-" ++ w ++ rest) = Some w).
  { assert (Hh : matchHere ("language-" ++ w ++ rest) = Some w).
    { unfold matchHere. rewrite dropPrefix_append, takeWord_word by (split; assumption).
      destruct w; [contradiction|reflexivity]. }
    change ("language-" ++ w ++ rest) with (String "l" ("anguage-" ++ w ++ rest)) in *.
    cbn [matchLanguage]. rewrite Hh. reflexivity. }
  unfold render.
  change (default "" (Some ("language-" ++ w ++ rest))) with ("language-" ++ w ++ rest).
  rewrite Hm. split; reflexivity.
Qed.

(** The theorem at a class name with a second class after the language. *)
Lemma language_class_gives_its_block_witness :
  render false (Some "language-python hljs") "print(1)" = Block "python" "print(1)".
Proof.
  assert (Hw : Forall (fun c => isWordChar c = true) (list_ascii_of_string "python"))
    by (repeat constructor).
  destruct (language_class_gives_its_block "python" " hljs" "print(1)"
              ltac:(discriminate) Hw eq_refl) as [H _].
  exact H.
Defined.

End CodeBlockFacts.
